(** * Converso chat widget: the message-submission lifecycle of [App.js]

    A shallow embedding of [src/frontend_react_chatbot/src/App.js]:
    - [JsString]: the ECMAScript string operations the component calls
      ([trim], [toLowerCase], [includes], [endsWith], template literals),
      over strings as sequences of UTF-16 code units;
    - [Binary64]: the IEEE 754 double arithmetic behind
      [1000 + Math.random() * 1200];
    - [App]: the component state of [App], its handlers [handleSendMsg],
      [handleKeyDown], the [setTimeout] callback and [getFakeAIReply];
    - [View]: the elements [App], [ChatMessage] and [LoadingIndicator]
      return. *)

From Stdlib Require Import List NArith ZArith Bool Ascii String Lia.
From Stdlib Require Import SpecFloat.
Import ListNotations.

(* ================================================================== *)
(** ** ECMAScript strings *)
(* ================================================================== *)

Module JsString.

(** A String value is a finite sequence of 16-bit code units. *)
Definition codeunit := N.
Definition jsstring := list codeunit.

(** A source literal made of Basic Latin characters only. *)
Definition lit (s : string) : jsstring :=
  map N_of_ascii (list_ascii_of_string s).

Definition eqb (s t : jsstring) : bool :=
  if list_eq_dec N.eq_dec s t then true else false.

(** [WhiteSpace] and [LineTerminator] code points of ECMA-262, the
    characters [String.prototype.trim] strips.  All of them lie in the
    Basic Multilingual Plane, so one code unit each. *)
Definition isWhiteSpace (c : codeunit) : bool :=
  ((0x09 <=? c) && (c <=? 0x0D)          (* TAB LF VT FF CR *)
   || (c =? 0x20) || (c =? 0xA0)         (* SP, NBSP *)
   || (c =? 0x1680)
   || ((0x2000 <=? c) && (c <=? 0x200A)) (* Zs spaces *)
   || (c =? 0x2028) || (c =? 0x2029)     (* LS, PS *)
   || (c =? 0x202F) || (c =? 0x205F) || (c =? 0x3000)
   || (c =? 0xFEFF))%N.                  (* ZWNBSP *)

Fixpoint trimStart (s : jsstring) : jsstring :=
  match s with
  | [] => []
  | c :: s' => if isWhiteSpace c then trimStart s' else s
  end.

Definition trimEnd (s : jsstring) : jsstring :=
  rev (trimStart (rev s)).

(** [String.prototype.trim]. *)
Definition trim (s : jsstring) : jsstring := trimEnd (trimStart s).

(** Lower-casing of one code unit.  Of the Unicode lower-case mappings,
    exactly those of A-Z, of U+0130 (capital I with dot above, which
    becomes i followed by U+0307) and of U+212A (Kelvin sign) produce a
    Basic Latin letter; they are tabulated here.  Every other mapping
    sends a character outside Basic Latin to characters outside Basic
    Latin and is left as the identity: it cannot change the outcome of
    [includes] with a Basic Latin pattern, the only use [App.js] makes of
    a lower-cased string. *)
Definition lowerUnit (c : codeunit) : jsstring :=
  (if (0x41 <=? c) && (c <=? 0x5A) then [c + 0x20]
   else if c =? 0x130 then [0x69; 0x307]
   else if c =? 0x212A then [0x6B]
   else [c])%N.

(** [String.prototype.toLowerCase]. *)
Definition toLowerCase (s : jsstring) : jsstring := flat_map lowerUnit s.

Fixpoint isPrefixOf (p s : jsstring) : bool :=
  match p, s with
  | [], _ => true
  | _ :: _, [] => false
  | a :: p', b :: s' => (a =? b)%N && isPrefixOf p' s'
  end.

(** [String.prototype.includes] with the default position 0: is there
    an index at which [p] occurs in [s]? *)
Fixpoint includes (s p : jsstring) : bool :=
  isPrefixOf p s
  || match s with
     | [] => false
     | _ :: s' => includes s' p
     end.

(** [String.prototype.endsWith] with the default end position: the
    search string is compared with the last [length p] code units of [s],
    and a search string longer than [s] never matches. *)
Definition endsWith (s p : jsstring) : bool :=
  if (List.length s <? List.length p)%nat then false
  else eqb (skipn (List.length s - List.length p) s) p.

(** [!s] for a string: only the empty string is falsy. *)
Definition isFalsy (s : jsstring) : bool :=
  match s with [] => true | _ :: _ => false end.

(** The double-quote character, U+0022. *)
Definition dquote : codeunit := 0x22%N.

End JsString.

(* ================================================================== *)
(** ** IEEE 754 binary64, the Number type *)
(* ================================================================== *)

Module Binary64.

(** Precision and exponent bound of binary64; the operations are those of
    [SpecFloat], which round to nearest, ties to even. *)
Definition prec : Z := 53.
Definition emax : Z := 1024.

Definition double := spec_float.

Definition add : double -> double -> double := SFadd prec emax.
Definition mul : double -> double -> double := SFmul prec emax.
Definition ltb : double -> double -> bool := SFltb.
Definition leb : double -> double -> bool := SFleb.

(** The Number denoted by a non-negative integer literal. *)
Definition ofZ (z : Z) : double := binary_normalize prec emax z 0 false.

(** The values [Math.random()] may return: a Number greater than or equal
    to 0 and strictly less than 1. *)
Definition isRandomDraw (r : double) : bool :=
  valid_binary prec emax r && leb (ofZ 0) r && ltb r (ofZ 1).

(** The largest Number below 1, [1 - 2^-53]. *)
Definition maxDraw : double := S754_finite false 9007199254740991 (-53).

(** [inRange lo hi x]: the Number [x] is a zero, or a positive finite
    [m * 2^e], and its value lies between the integers [lo] and [hi].  The
    inequalities [lo <= m * 2^e <= hi] are written cleared of the power of
    two, [e] not being positive for the magnitudes at hand. *)
Definition inRange (lo hi : Z) (x : double) : Prop :=
  match x with
  | S754_zero _ => (lo <= 0 <= hi)%Z
  | S754_finite false m e =>
      (e <= 0 /\ lo * 2 ^ (- e) <= Zpos m <= hi * 2 ^ (- e))%Z
  | _ => False
  end.

(** What [k] applications of [shr_1] make of the mantissa [M]: the
    quotient by [2^k], with the round or sticky bit set only when the
    division left a remainder. *)
Definition shiftedBy (M k : Z) (mrs : shr_record) : Prop :=
  (0 <= shr_m mrs
   /\ exists rem, M = shr_m mrs * 2 ^ k + rem
                  /\ 0 <= rem < 2 ^ k
                  /\ (shr_r mrs = true \/ shr_s mrs = true -> 0 < rem))%Z.

End Binary64.

(* ================================================================== *)
(** ** The [App] component *)
(* ================================================================== *)

Module App.
Import JsString.

(** A chat message, [{role: "user"|"ai", content: string}]. *)
Record Message := mkMessage { role : jsstring; content : jsstring }.

Definition user : jsstring := lit "user".
Definition ai : jsstring := lit "ai".

(** A timer registered with [setTimeout] and not yet fired.  The callback
    of [handleSendMsg] is a closure over [trimmedInput], its only free
    variable besides the state setters. *)
Record Timer := mkTimer { trimmedInput : jsstring; delay : Binary64.double }.

(** The state hooks of [App], and the timers it has pending. *)
Record AppState := mkState {
  messages : list Message;
  input : jsstring;
  isLoading : bool;
  timers : list Timer
}.

(** Handlers return no value. *)
Variant jsvoid := undefined.

(** Event handlers as state transformers. *)
Definition Handler (A : Type) : Type := AppState -> A * AppState.

Definition ret {A} (a : A) : Handler A := fun st => (a, st).

Definition bind {A B} (c : Handler A) (k : A -> Handler B) : Handler B :=
  fun st => let (a, st') := c st in k a st'.

Notation "c1 ;; c2" := (bind c1 (fun _ => c2))
  (at level 61, right associativity).

Definition setMessages (f : list Message -> list Message) : Handler unit :=
  fun st => (tt, mkState (f (messages st)) (input st) (isLoading st) (timers st)).

Definition setInput (v : jsstring) : Handler unit :=
  fun st => (tt, mkState (messages st) v (isLoading st) (timers st)).

Definition setIsLoading (b : bool) : Handler unit :=
  fun st => (tt, mkState (messages st) (input st) b (timers st)).

Definition setTimeout (captured : jsstring) (ms : Binary64.double)
  : Handler unit :=
  fun st => (tt, mkState (messages st) (input st) (isLoading st)
                         (timers st ++ [mkTimer captured ms])).

(** U+1F44B (waving hand) and U+1F60A (smiling face), as surrogate pairs. *)
Definition wavingHand : jsstring := [0xD83D; 0xDC4B]%N.
Definition smilingFace : jsstring := [0xD83D; 0xDE0A]%N.

Definition seedGreeting : jsstring :=
  lit "Hello! " ++ wavingHand
  ++ lit " I am Converso, your AI chatbot. How can I help you today?".

(** [useState] initial values. *)
Definition initialState : AppState :=
  mkState [mkMessage ai seedGreeting] [] false [].

Definition greetingReply : jsstring :=
  lit "Hi there! " ++ smilingFace ++ lit " How can I help you?".

Definition weatherReply : jsstring :=
  lit "I'm just a demo AI, but it's always sunny in the cloud!".

Definition questionReply : jsstring :=
  lit "That's a great question! Let me look into it for you. (This is a demo reply)".

(** The template literal of the fallback branch. *)
Definition echoReply (userInput : jsstring) : jsstring :=
  lit "You said: " ++ [dquote] ++ userInput ++ [dquote]
  ++ lit ". How else can I assist?".

Definition getFakeAIReply (userInput : jsstring) : jsstring :=
  if includes (toLowerCase userInput) (lit "hello")
     || includes (toLowerCase userInput) (lit "hi")
  then greetingReply
  else if includes (toLowerCase userInput) (lit "weather")
  then weatherReply
  else if endsWith userInput (lit "?")
  then questionReply
  else echoReply userInput.

(** [1000 + Math.random() * 1200], with [rnd] the value drawn. *)
Definition timeoutDelay (rnd : Binary64.double) : Binary64.double :=
  Binary64.add (Binary64.ofZ 1000) (Binary64.mul rnd (Binary64.ofZ 1200)).

(** [handleSendMsg].  [input] and [isLoading] are the values of the render
    the handler was created in, read here from the state on entry; [rnd] is
    what [Math.random()] returns if it is called. *)
Definition handleSendMsg (rnd : Binary64.double) : Handler jsvoid :=
  fun st =>
    let trimmedInput := trim (input st) in
    if isFalsy trimmedInput || isLoading st then (undefined, st)
    else
      (setMessages (fun msgs => msgs ++ [mkMessage user trimmedInput]) ;;
       setInput [] ;;
       setIsLoading true ;;
       setTimeout trimmedInput (timeoutDelay rnd) ;;
       ret undefined) st.

(** The arrow function handed to [setTimeout]. *)
Definition timeoutCallback (trimmedInput : jsstring) : Handler jsvoid :=
  let fakeReply := getFakeAIReply trimmedInput in
  setMessages (fun msgs => msgs ++ [mkMessage ai fakeReply]) ;;
  setIsLoading false ;;
  ret undefined.

Definition handleKeyDown (key : jsstring) (shiftKey : bool)
  (rnd : Binary64.double) : Handler jsvoid :=
  if eqb key (lit "Enter") && negb shiftKey then handleSendMsg rnd
  else ret undefined.

(** The [n]-th pending timer expires: it leaves the timer list and its
    callback runs.  Nothing happens when there is no such timer. *)
Definition removeNth {A} (n : nat) (l : list A) : list A :=
  firstn n l ++ skipn (S n) l.

Definition fireTimer (n : nat) : Handler jsvoid :=
  fun st =>
    match nth_error (timers st) n with
    | None => (undefined, st)
    | Some t =>
        timeoutCallback (trimmedInput t)
          (mkState (messages st) (input st) (isLoading st)
                   (removeNth n (timers st)))
    end.

(** What can happen to the component between two renders. *)
Inductive event :=
| OnChange (value : jsstring)              (* textarea onChange *)
| OnSubmit (rnd : Binary64.double)         (* form onSubmit *)
| OnKeyDown (key : jsstring) (shiftKey : bool) (rnd : Binary64.double)
| TimerFires (n : nat).

(** An event handled in the state [st] by the handlers of the render of
    [st] itself: the component has rendered since its state last
    changed. *)
Definition dispatch (ev : event) (st : AppState) : AppState :=
  match ev with
  | OnChange v => snd (setInput v st)
  | OnSubmit rnd => snd (handleSendMsg rnd st)
  | OnKeyDown key shiftKey rnd => snd (handleKeyDown key shiftKey rnd st)
  | TimerFires n => snd (fireTimer n st)
  end.

(** The handlers as one render creates them.  [handleSendMsg] is a
    closure over the [input] and [isLoading] of the render it belongs to,
    here the state [render], while the setters it calls act on the state as
    it is by then, [st]: until the component renders again every call
    tests the same [input] and the same [isLoading]. *)
Definition handleSendMsgOf (render : AppState) (rnd : Binary64.double)
  : Handler jsvoid :=
  fun st =>
    let trimmedInput := trim (input render) in
    if isFalsy trimmedInput || isLoading render then (undefined, st)
    else
      (setMessages (fun msgs => msgs ++ [mkMessage user trimmedInput]) ;;
       setInput [] ;;
       setIsLoading true ;;
       setTimeout trimmedInput (timeoutDelay rnd) ;;
       ret undefined) st.

Definition handleKeyDownOf (render : AppState) (key : jsstring)
  (shiftKey : bool) (rnd : Binary64.double) : Handler jsvoid :=
  if eqb key (lit "Enter") && negb shiftKey then handleSendMsgOf render rnd
  else ret undefined.

(** An event handled in the state [st] by the handlers of the render of
    [render].  The textarea's [onChange] and the timer callback read no
    state of their render. *)
Definition deliver (render : AppState) (ev : event) (st : AppState)
  : AppState :=
  match ev with
  | OnChange v => snd (setInput v st)
  | OnSubmit rnd => snd (handleSendMsgOf render rnd st)
  | OnKeyDown key shiftKey rnd =>
      snd (handleKeyDownOf render key shiftKey rnd st)
  | TimerFires n => snd (fireTimer n st)
  end.

(** A task: events that reach the component with no render in between,
    all handled by the handlers of the render of the state [st] the task
    starts in.  The component renders when the task is over. *)
Definition runTask (task : list event) (st : AppState) : AppState :=
  fold_left (fun s ev => deliver st ev s) task st.

Definition runTasks (tasks : list (list event)) (st : AppState) : AppState :=
  fold_left (fun s task => runTask task s) tasks st.

(** Events that come one per task: the component renders after each of
    them, so that each is handled by the handlers of the state the one
    before has left. *)
Definition run (evs : list event) (st : AppState) : AppState :=
  runTasks (map (fun ev => [ev]) evs) st.

(** States the component can be in: the initial one and those any
    sequence of tasks leads to, however many events a task holds. *)
Inductive reachable : AppState -> Prop :=
| reachable_init : reachable initialState
| reachable_task st task : reachable st -> reachable (runTask task st).

Definition lastMessage (st : AppState) : option Message :=
  nth_error (rev (messages st)) 0.

(** The [maxLength] attribute of the textarea. *)
Definition maxLength : nat := 2048.

(** The outcomes the specification gives [submit]. *)
Variant SubmitOutcome := Accepted | EmptyInput | AlreadyPending.

(** The effect of one event handled by the render of the state it
    meets, as a relation between the state before and the state after:
    nothing (a refused send, a key other than Enter, a timer that does not
    exist), a new textarea value, an accepted send, or the reply of an
    expired timer. *)
Inductive transition (st : AppState) : AppState -> Prop :=
| transition_none : transition st st
| transition_input v :
    transition st (mkState (messages st) v (isLoading st) (timers st))
| transition_send rnd :
    trim (input st) <> [] ->
    isLoading st = false ->
    transition st
      (mkState (messages st ++ [mkMessage user (trim (input st))]) [] true
               (timers st ++ [mkTimer (trim (input st)) (timeoutDelay rnd)]))
| transition_reply n t :
    nth_error (timers st) n = Some t ->
    transition st
      (mkState (messages st ++ [mkMessage ai (getFakeAIReply (trimmedInput t))])
               (input st) false (removeNth n (timers st))).

(** The effect of one event whatever render handles it: as for
    [transition], but an accepted send records the utterance [c] that the
    render of its handler held, not empty once trimmed. *)
Inductive effect (st : AppState) : AppState -> Prop :=
| effect_none : effect st st
| effect_input v :
    effect st (mkState (messages st) v (isLoading st) (timers st))
| effect_send c ms :
    c <> [] ->
    effect st
      (mkState (messages st ++ [mkMessage user c]) [] true
               (timers st ++ [mkTimer c ms]))
| effect_reply n t :
    nth_error (timers st) n = Some t ->
    effect st
      (mkState (messages st ++ [mkMessage ai (getFakeAIReply (trimmedInput t))])
               (input st) false (removeNth n (timers st))).

(** Idle with an [ai] message last, or loading with a [user] message
    last, whose timer is the latest of those pending. *)
Definition lifecycleInvariant (st : AppState) : Prop :=
  (isLoading st = false
   /\ exists pre c, messages st = pre ++ [mkMessage ai c])
  \/ (isLoading st = true
      /\ exists pre c ms older,
           messages st = pre ++ [mkMessage user c]
           /\ timers st = older ++ [mkTimer c ms]).

(** Sample states: a textarea holding only blanks, one holding a message,
    the component waiting for the reply to that message, and the component
    after two submissions of that message reached it in one task. *)
Definition blankInputState : AppState :=
  mkState [mkMessage ai seedGreeting] (lit "   ") false [].

Definition helloTyped : AppState := dispatch (OnChange (lit "hello")) initialState.

Definition busyState : AppState :=
  dispatch (OnSubmit Binary64.maxDraw) helloTyped.

Definition sentTwiceState : AppState :=
  runTask [OnSubmit Binary64.maxDraw; OnSubmit Binary64.maxDraw] helloTyped.

End App.

(* ================================================================== *)
(** ** What the component renders *)
(* ================================================================== *)

Module View.
Import JsString App.

(** The functions the markup installs as event handlers. *)
Variant handlerRef :=
| HandleSendMsg          (* onSubmit={handleSendMsg} *)
| HandleKeyDown          (* onKeyDown={handleKeyDown} *)
| SetInputFromTarget.    (* onChange={e => setInput(e.target.value)} *)

(** The value of a JSX attribute. *)
Variant prop :=
| PStr (value : jsstring)
| PBool (value : bool)
| PNum (value : Z)
| PHandler (handler : handlerRef)
| PRef.                  (* ref={chatEndRef} *)

(** A rendered element, with its attributes and children, or a text. *)
#[warnings="-register-all"]
Inductive vnode :=
| Elem (tag : string) (props : list (string * prop)) (children : list vnode)
| Text (value : jsstring).

Definition className (c : jsstring) : string * prop :=
  ("className"%string, PStr c).

Definition getProp (name : string) (v : vnode) : option prop :=
  match v with
  | Elem _ props _ =>
      option_map snd (find (fun p => String.eqb (fst p) name) props)
  | Text _ => None
  end.

Definition children (v : vnode) : list vnode :=
  match v with
  | Elem _ _ cs => cs
  | Text _ => []
  end.

(** The text of a node, as the DOM's [textContent] gives it. *)
Fixpoint textContent (v : vnode) : jsstring :=
  match v with
  | Elem _ _ cs => flat_map textContent cs
  | Text s => s
  end.

(** [ChatMessage({ role, content })]. *)
Definition ChatMessage (role content : jsstring) : vnode :=
  let isAI := eqb role (lit "ai") in
  Elem "div"
    [className (lit "chatbot-msg "
                ++ (if isAI then lit "chatbot-msg-ai" else lit "chatbot-msg-user"))]
    [Elem "div"
       [className (if isAI then lit "chatbot-ai-bubble"
                   else lit "chatbot-user-bubble")]
       [Text content]].

(** [LoadingIndicator()]. *)
Definition LoadingIndicator : vnode :=
  Elem "span" [className (lit "chatbot-loading")]
    [Elem "span" [] [Text (lit ".")];
     Elem "span" [] [Text (lit ".")];
     Elem "span" [] [Text (lit ".")]].

(** U+1F916 (robot face), as a surrogate pair. *)
Definition robotFace : jsstring := [0xD83E; 0xDD16]%N.

(** The message log of [App]: one [ChatMessage] per message, the typing
    bubble while [isLoading], and the element scrolled into view.  The
    [key={idx}] of each [ChatMessage] is the position in the list. *)
Definition messagesLog (st : AppState) : vnode :=
  Elem "div"
    [className (lit "chatbot-messages");
     ("role"%string, PStr (lit "log"));
     ("aria-live"%string, PStr (lit "polite"))]
    (map (fun msg => ChatMessage (role msg) (content msg)) (messages st)
     ++ (if isLoading st
         then [Elem "div" [className (lit "chatbot-msg chatbot-msg-ai")]
                 [Elem "div" [className (lit "chatbot-ai-bubble")]
                    [LoadingIndicator]]]
         else [])
     ++ [Elem "span" [("ref"%string, PRef)] []]).

Definition textarea (st : AppState) : vnode :=
  Elem "textarea"
    [className (lit "chatbot-input");
     ("value"%string, PStr (input st));
     ("onChange"%string, PHandler SetInputFromTarget);
     ("onKeyDown"%string, PHandler HandleKeyDown);
     ("disabled"%string, PBool (isLoading st));
     ("rows"%string, PNum 1);
     ("maxLength"%string, PNum 2048);
     ("placeholder"%string, PStr (lit "Type your message..."));
     ("aria-label"%string, PStr (lit "Type your message"))]
    [].

Definition sendButton (st : AppState) : vnode :=
  Elem "button"
    [("type"%string, PStr (lit "submit"));
     className (lit "chatbot-send-btn");
     ("disabled"%string, PBool (isFalsy (trim (input st)) || isLoading st));
     ("aria-label"%string, PStr (lit "Send message"));
     ("tabIndex"%string, PNum 0)]
    [Elem "span" [] [Text (lit "Send")];
     Elem "svg"
       [("width"%string, PStr (lit "18"));
        ("height"%string, PStr (lit "18"));
        ("viewBox"%string, PStr (lit "0 0 18 18"));
        ("aria-hidden"%string, PStr (lit "true"))]
       [Elem "path"
          [("d"%string, PStr (lit "M2 16L16 9L2 2V7L12 9L2 11V16Z"));
           ("fill"%string, PStr (lit "currentColor"))]
          []]].

Definition inputBar (st : AppState) : vnode :=
  Elem "form"
    [className (lit "chatbot-input-bar");
     ("onSubmit"%string, PHandler HandleSendMsg);
     ("autoComplete"%string, PStr (lit "off"))]
    [textarea st; sendButton st].

(** The element [App] returns. *)
Definition render (st : AppState) : vnode :=
  Elem "div" [className (lit "chatbot-root")]
    [Elem "header" [className (lit "chatbot-header")]
       [Elem "span" [className (lit "chatbot-logo");
                     ("aria-label"%string, PStr (lit "logo"))]
          [Text robotFace];
        Elem "span" [className (lit "chatbot-title")] [Text (lit "Converso AI")];
        Elem "span" [className (lit "chatbot-brand-accent")] []];
     Elem "main" [className (lit "chatbot-main")]
       [Elem "div" [className (lit "chatbot-chat-container")]
          [messagesLog st; inputBar st]];
     Elem "footer" [className (lit "chatbot-footer")]
       [Elem "small" []
          [Text (lit "Powered by ");
           Elem "span" [className (lit "chatbot-brand")]
             [Text (lit "Converso AI")]]]].

(** Is the [disabled] attribute of a control set? *)
Definition isDisabled (v : vnode) : bool :=
  match getProp "disabled" v with
  | Some (PBool b) => b
  | _ => false
  end.

(** Does the control accept a value of [n] code units?  A [maxLength]
    attribute caps what the user can enter. *)
Definition withinMaxLength (v : vnode) (n : nat) : bool :=
  match getProp "maxLength" v with
  | Some (PNum limit) => (Z.of_nat n <=? limit)%Z
  | _ => true
  end.

(** The events the rendered page can deliver in state [st]: a disabled
    textarea receives neither input nor key presses and an enabled one
    holds no more than its [maxLength]; the form is submitted through its
    submit button, which must be enabled; a timer fires only if pending. *)
Definition uiEnabled (st : AppState) (ev : event) : bool :=
  match ev with
  | OnChange v =>
      negb (isDisabled (textarea st))
      && withinMaxLength (textarea st) (List.length v)
  | OnSubmit _ => negb (isDisabled (sendButton st))
  | OnKeyDown _ _ _ => negb (isDisabled (textarea st))
  | TimerFires n => (n <? List.length (timers st))%nat
  end.

(** States reached through the page alone. *)
Inductive uiReachable : AppState -> Prop :=
| uiReachable_init : uiReachable initialState
| uiReachable_step st ev :
    uiReachable st -> uiEnabled st ev = true -> uiReachable (dispatch ev st).

(** The messages of a conversation in which the utterances [cs] were sent
    and answered, in this order. *)
Fixpoint exchanges (cs : list jsstring) : list Message :=
  match cs with
  | [] => []
  | c :: cs' =>
      mkMessage user c :: mkMessage ai (getFakeAIReply c) :: exchanges cs'
  end.

(** An utterance as [handleSendMsg] records it: not empty, and with
    nothing left to trim. *)
Definition isUtterance (c : jsstring) : Prop := c <> [] /\ trim c = c.

(** The history is the greeting followed by answered exchanges, and when
    [isLoading] by one more utterance, whose timer is the only one
    pending. *)
Definition conversationShape (st : AppState) : Prop :=
  exists cs,
    Forall isUtterance cs
    /\ ((isLoading st = false /\ timers st = []
         /\ messages st = mkMessage ai seedGreeting :: exchanges cs)
        \/ (isLoading st = true
            /\ exists c ms,
                 isUtterance c
                 /\ messages st
                    = mkMessage ai seedGreeting
                      :: exchanges cs ++ [mkMessage user c]
                 /\ timers st = [mkTimer c ms])).

(** What the page guarantees about lengths, in code units: the input
    fits the textarea and is empty while a reply is awaited; a message
    holds between 1 and 2084, a [user] message at most 2048; and so does
    the utterance of a pending timer. *)
Definition uiInvariant (st : AppState) : Prop :=
  (List.length (input st) <= 2048)%nat
  /\ (isLoading st = true -> input st = [])
  /\ Forall (fun m => (1 <= List.length (content m) <= 2084)%nat
                      /\ (role m = user ->
                          (List.length (content m) <= 2048)%nat))
            (messages st)
  /\ Forall (fun t => (List.length (trimmedInput t) <= 2048)%nat) (timers st).


End View.

(* ================================================================== *)
(** ** Facts about the string operations *)
(* ================================================================== *)

Module JsStringFacts.
Import JsString.

Lemma eqb_true_iff (s t : jsstring) : eqb s t = true <-> s = t.
Proof.
  unfold eqb. destruct (list_eq_dec N.eq_dec s t); split; congruence.
Qed.

Lemma isPrefixOf_true_iff (p s : jsstring) :
  isPrefixOf p s = true <-> exists post, s = p ++ post.
Proof.
  revert s. induction p as [|a p IH]; intros s; simpl.
  - split; [intros _; now exists s | reflexivity].
  - destruct s as [|b s].
    + split; [discriminate | intros [post H]; discriminate].
    + rewrite andb_true_iff, N.eqb_eq, IH. split.
      * intros [-> [post ->]]. now exists post.
      * intros [post H]. injection H as -> ->. split; [reflexivity | now exists post].
Qed.

(** [includes] finds exactly the occurrences of [p] as a factor of [s]. *)
Lemma includes_true_iff (s p : jsstring) :
  includes s p = true <-> exists pre post, s = pre ++ p ++ post.
Proof.
  induction s as [|c s IH].
  - simpl. rewrite orb_false_r, isPrefixOf_true_iff. split.
    + intros [post H]. now exists [], post.
    + intros [pre [post H]]. destruct pre; [now exists post | discriminate].
  - cbn [includes]. rewrite orb_true_iff, isPrefixOf_true_iff, IH. split.
    + intros [[post H] | [pre [post H]]].
      * now exists [], post.
      * exists (c :: pre), post. now rewrite H.
    + intros [[|d pre] [post H]].
      * left. now exists post.
      * right. injection H as -> ->. now exists pre, post.
Qed.

Lemma includes_factor (pre s post : jsstring) :
  includes (pre ++ s ++ post) s = true.
Proof. apply includes_true_iff. now exists pre, post. Qed.

Lemma includes_trans (s t p : jsstring) :
  includes s t = true -> includes t p = true -> includes s p = true.
Proof.
  rewrite !includes_true_iff. intros [a [b ->]] [c [d ->]].
  exists (a ++ c), (d ++ b). now rewrite <- !app_assoc.
Qed.

Lemma endsWith_true_iff (s p : jsstring) :
  endsWith s p = true <-> exists pre, s = pre ++ p.
Proof.
  unfold endsWith. destruct (Nat.ltb_spec (List.length s) (List.length p)) as [Hlt | Hle].
  - split; [discriminate|]. intros [pre ->]. rewrite length_app in Hlt. lia.
  - rewrite eqb_true_iff. split.
    + set (k := (List.length s - List.length p)%nat). intros H.
      exists (firstn k s). rewrite <- H. symmetry. apply firstn_skipn.
    + intros [pre ->]. rewrite length_app.
      replace (List.length pre + List.length p - List.length p)%nat
        with (List.length pre + 0)%nat by lia.
      now rewrite skipn_app, Nat.add_0_r, skipn_all, Nat.sub_diag.
Qed.

Lemma trimStart_suffix (s : jsstring) : exists pre, s = pre ++ trimStart s.
Proof.
  induction s as [|c s [pre IH]]; simpl.
  - now exists [].
  - destruct (isWhiteSpace c).
    + exists (c :: pre). now rewrite IH at 1.
    + now exists [].
Qed.

Lemma trimEnd_prefix (s : jsstring) : exists post, s = trimEnd s ++ post.
Proof.
  unfold trimEnd. destruct (trimStart_suffix (rev s)) as [pre H].
  exists (rev pre). rewrite <- rev_app_distr, <- H. symmetry. apply rev_involutive.
Qed.

(** [trim] only removes code units at the two ends. *)
Lemma trim_factor (s : jsstring) : exists pre post, s = pre ++ trim s ++ post.
Proof.
  unfold trim. destruct (trimStart_suffix s) as [pre H].
  destruct (trimEnd_prefix (trimStart s)) as [post H'].
  exists pre, post. now rewrite <- H'.
Qed.

Lemma trim_length (s : jsstring) : (List.length (trim s) <= List.length s)%nat.
Proof.
  destruct (trim_factor s) as [pre [post H]].
  rewrite H at 2. rewrite !length_app. lia.
Qed.

Lemma toLowerCase_app (s t : jsstring) :
  toLowerCase (s ++ t) = toLowerCase s ++ toLowerCase t.
Proof. apply flat_map_app. Qed.

(** The case-insensitive reading of the test
    [s.toLowerCase().includes(p)]: it succeeds as soon as some factor of
    [s] lower-cases to [p]. *)
Lemma includes_toLowerCase_factor (pre w post p : jsstring) :
  toLowerCase w = p -> includes (toLowerCase (pre ++ w ++ post)) p = true.
Proof.
  intros <-. rewrite !toLowerCase_app. apply includes_factor.
Qed.

Lemma isFalsy_true_iff (s : jsstring) : isFalsy s = true <-> s = [].
Proof. destruct s; simpl; split; congruence. Qed.

End JsStringFacts.

(* ================================================================== *)
(** ** The reply generator *)
(* ================================================================== *)

Module ReplyProps.
Import JsString JsStringFacts App.

Lemma echoReply_includes (u : jsstring) : includes (echoReply u) u = true.
Proof.
  unfold echoReply. apply includes_true_iff.
  exists (lit "You said: " ++ [dquote]), ([dquote] ++ lit ". How else can I assist?").
  now rewrite <- !app_assoc.
Qed.

Lemma includes_trim (u : jsstring) : includes u (trim u) = true.
Proof.
  apply includes_true_iff. destruct (trim_factor u) as [pre [post H]].
  now exists pre, post.
Qed.

(** C3. The rules of [getFakeAIReply] are tried in order and the first
    that matches decides: a lower-cased utterance that includes "hello" or
    "hi" gets the greeting reply; failing that, one that includes "weather"
    gets the weather reply, whether or not it ends with a question mark;
    failing that, an utterance that ends with "?" gets the question reply;
    and every other utterance gets the echo reply, which contains the
    utterance, hence its trimmed form, as a literal factor. *)
Theorem getFakeAIReply_rule_order (u : jsstring) :
  (includes (toLowerCase u) (lit "hello") = true
   \/ includes (toLowerCase u) (lit "hi") = true ->
   getFakeAIReply u = greetingReply)
  /\ (includes (toLowerCase u) (lit "hello") = false ->
      includes (toLowerCase u) (lit "hi") = false ->
      includes (toLowerCase u) (lit "weather") = true ->
      getFakeAIReply u = weatherReply)
  /\ (includes (toLowerCase u) (lit "hello") = false ->
      includes (toLowerCase u) (lit "hi") = false ->
      includes (toLowerCase u) (lit "weather") = false ->
      endsWith u (lit "?") = true ->
      getFakeAIReply u = questionReply)
  /\ (includes (toLowerCase u) (lit "hello") = false ->
      includes (toLowerCase u) (lit "hi") = false ->
      includes (toLowerCase u) (lit "weather") = false ->
      endsWith u (lit "?") = false ->
      getFakeAIReply u = echoReply u
      /\ includes (getFakeAIReply u) u = true
      /\ includes (getFakeAIReply u) (trim u) = true).
Proof.
  unfold getFakeAIReply. split; [| split; [| split]].
  - intros [H | H]; rewrite H; [reflexivity | now rewrite orb_true_r].
  - intros H1 H2 H3. now rewrite H1, H2, H3.
  - intros H1 H2 H3 H4. now rewrite H1, H2, H3, H4.
  - intros H1 H2 H3 H4. rewrite H1, H2, H3, H4. cbn [orb].
    split; [reflexivity | split].
    + apply echoReply_includes.
    + apply includes_trans with (t := u);
        [apply echoReply_includes | apply includes_trim].
Qed.

(** The four rules at work on the utterances "Hi there",
    "what's the weather?", "Why?" and "ok thanks". *)
Lemma getFakeAIReply_rule_order_witness :
  getFakeAIReply (lit "Hi there") = greetingReply
  /\ getFakeAIReply (lit "what's the weather?") = weatherReply
  /\ getFakeAIReply (lit "Why?") = questionReply
  /\ includes (getFakeAIReply (lit "ok thanks")) (lit "ok thanks") = true.
Proof.
  split; [| split; [| split]].
  - apply (proj1 (getFakeAIReply_rule_order (lit "Hi there"))).
    right. reflexivity.
  - apply (proj1 (proj2 (getFakeAIReply_rule_order (lit "what's the weather?"))));
      reflexivity.
  - apply (proj1 (proj2 (proj2 (getFakeAIReply_rule_order (lit "Why?")))));
      reflexivity.
  - apply (proj2 (proj2 (proj2 (getFakeAIReply_rule_order (lit "ok thanks")))));
      reflexivity.
Defined.

(** C4, as the specification has it, fails: "Is this real?" does not get
    the question reply. *)
Lemma is_this_real_not_question :
  getFakeAIReply (lit "Is this real?") <> questionReply.
Proof. vm_compute. discriminate. Qed.

(** C4, amended. "Is this real?" gets the greeting reply: lower-cased, it
    includes "hi" (inside "this"), and that rule is tried before the one
    for a final "?", which the utterance also satisfies.  A question free
    of "hello", "hi" and "weather", such as "Are you real?", gets the
    question reply. *)
Theorem is_this_real_greeting :
  getFakeAIReply (lit "Is this real?") = greetingReply
  /\ includes (toLowerCase (lit "Is this real?")) (lit "hi") = true
  /\ endsWith (lit "Is this real?") (lit "?") = true
  /\ getFakeAIReply (lit "Are you real?") = questionReply.
Proof. repeat split; reflexivity. Qed.

Lemma reply_length_positive (u : jsstring) :
  (1 <= List.length (getFakeAIReply u))%nat.
Proof.
  unfold getFakeAIReply.
  destruct (includes (toLowerCase u) (lit "hello")
            || includes (toLowerCase u) (lit "hi")); [cbn; lia |].
  destruct (includes (toLowerCase u) (lit "weather")); [cbn; lia |].
  destruct (endsWith u (lit "?")); cbn; lia.
Qed.

Lemma reply_not_empty (u : jsstring) : getFakeAIReply u <> [].
Proof.
  intros H. pose proof (reply_length_positive u) as L.
  rewrite H in L. simpl in L. lia.
Qed.

(** C10. [getFakeAIReply] answers every string, and never with the empty
    string. *)
Theorem getFakeAIReply_nonempty (u : jsstring) :
  getFakeAIReply u <> [] /\ (1 <= List.length (getFakeAIReply u))%nat.
Proof. split; [apply reply_not_empty | apply reply_length_positive]. Qed.

End ReplyProps.

(* ================================================================== *)
(** ** The submission lifecycle *)
(* ================================================================== *)

Module LifecycleProps.
Import JsString JsStringFacts App.

Lemma handleSendMsg_refused rnd st :
  trim (input st) = [] \/ isLoading st = true ->
  handleSendMsg rnd st = (undefined, st).
Proof.
  unfold handleSendMsg. intros [H | H]; rewrite H.
  - reflexivity.
  - now rewrite orb_true_r.
Qed.

Lemma handleSendMsg_accepted rnd st :
  trim (input st) <> [] ->
  isLoading st = false ->
  handleSendMsg rnd st
  = (undefined,
     mkState (messages st ++ [mkMessage user (trim (input st))]) [] true
             (timers st ++ [mkTimer (trim (input st)) (timeoutDelay rnd)])).
Proof.
  unfold handleSendMsg. intros Hne ->.
  destruct (trim (input st)) as [|c s]; [congruence | reflexivity].
Qed.

Lemma fireTimer_some n t st :
  nth_error (timers st) n = Some t ->
  fireTimer n st
  = (undefined,
     mkState (messages st ++ [mkMessage ai (getFakeAIReply (trimmedInput t))])
             (input st) false (removeNth n (timers st))).
Proof. unfold fireTimer. now intros ->. Qed.

Lemma removeNth_last {A} (l : list A) (x : A) :
  removeNth (List.length l) (l ++ [x]) = l.
Proof.
  unfold removeNth.
  rewrite firstn_app, Nat.sub_diag, firstn_all, skipn_all2, !app_nil_r;
    [reflexivity | rewrite length_app; simpl; lia].
Qed.

Lemma handleSendMsg_transition rnd st :
  transition st (snd (handleSendMsg rnd st)).
Proof.
  destruct (isLoading st) eqn:Hl.
  - rewrite handleSendMsg_refused by now right. constructor.
  - destruct (list_eq_dec N.eq_dec (trim (input st)) []) as [He | Hne].
    + rewrite handleSendMsg_refused by now left. constructor.
    + rewrite handleSendMsg_accepted by assumption. now constructor.
Qed.

(** Every event is one of the four transitions. *)
Lemma dispatch_transition ev st : transition st (dispatch ev st).
Proof.
  destruct ev as [v | rnd | key shiftKey rnd | n]; simpl.
  - constructor.
  - apply handleSendMsg_transition.
  - unfold handleKeyDown. destruct (eqb key (lit "Enter") && negb shiftKey).
    + apply handleSendMsg_transition.
    + constructor.
  - destruct (nth_error (timers st) n) as [t |] eqn:Ht.
    + rewrite (fireTimer_some n t st Ht). now constructor.
    + unfold fireTimer. rewrite Ht. constructor.
Qed.

(** The handlers of the render of the current state are the handlers
    of [dispatch]. *)
Lemma deliver_self ev st : deliver st ev st = dispatch ev st.
Proof.
  destruct ev as [v | rnd | key shiftKey rnd | n]; try reflexivity.
  cbn [deliver dispatch]. unfold handleKeyDownOf, handleKeyDown.
  destruct (eqb key (lit "Enter") && negb shiftKey); reflexivity.
Qed.

Lemma runTask_single ev st : runTask [ev] st = dispatch ev st.
Proof. apply deliver_self. Qed.

Lemma run_cons ev evs st : run (ev :: evs) st = run evs (dispatch ev st).
Proof. unfold run, runTasks. cbn [map fold_left]. now rewrite runTask_single. Qed.

Lemma handleSendMsgOf_effect render rnd st :
  effect st (snd (handleSendMsgOf render rnd st)).
Proof.
  unfold handleSendMsgOf.
  destruct (trim (input render)) as [| c s] eqn:Hc; [constructor |].
  destruct (isLoading render); [constructor |].
  cbn. now constructor.
Qed.

(** Every event has one of the four effects, whichever render handles
    it. *)
Lemma deliver_effect render ev st : effect st (deliver render ev st).
Proof.
  destruct ev as [v | rnd | key shiftKey rnd | n]; cbn [deliver].
  - constructor.
  - apply handleSendMsgOf_effect.
  - unfold handleKeyDownOf. destruct (eqb key (lit "Enter") && negb shiftKey).
    + apply handleSendMsgOf_effect.
    + constructor.
  - destruct (nth_error (timers st) n) as [t |] eqn:Ht.
    + rewrite (fireTimer_some n t st Ht). now constructor.
    + unfold fireTimer. rewrite Ht. constructor.
Qed.

Section EffectClosed.

Variable P : AppState -> Prop.
Hypothesis P_effect : forall st st', effect st st' -> P st -> P st'.

Lemma deliveries_closed render task : forall st,
  P st -> P (fold_left (fun s ev => deliver render ev s) task st).
Proof.
  induction task as [| ev task IH]; intros st H; cbn [fold_left].
  - exact H.
  - apply IH. exact (P_effect st _ (deliver_effect render ev st) H).
Qed.

Lemma runTask_closed task st : P st -> P (runTask task st).
Proof. apply deliveries_closed. Qed.

Lemma runTasks_closed tasks : forall st, P st -> P (runTasks tasks st).
Proof.
  unfold runTasks.
  induction tasks as [| task tasks IH]; intros st H; cbn [fold_left].
  - exact H.
  - apply IH. now apply runTask_closed.
Qed.

(** What the initial state has and every effect keeps holds of every
    reachable state. *)
Lemma reachable_closed : P initialState -> forall st, reachable st -> P st.
Proof.
  intros H0 st R. induction R as [| st task _ IH].
  - exact H0.
  - now apply runTask_closed.
Qed.

End EffectClosed.

Lemma reachable_dispatch st ev : reachable st -> reachable (dispatch ev st).
Proof. intros R. rewrite <- runTask_single. now constructor. Qed.

Lemma reachable_run evs : forall st, reachable st -> reachable (run evs st).
Proof.
  induction evs as [| ev evs IH]; intros st H.
  - exact H.
  - rewrite run_cons. apply IH. now apply reachable_dispatch.
Qed.

Lemma busyState_reachable : reachable busyState.
Proof. repeat apply reachable_dispatch. constructor. Qed.

Lemma sentTwiceState_reachable : reachable sentTwiceState.
Proof. constructor. apply reachable_dispatch. constructor. Qed.

Lemma lifecycleInvariant_step st st' :
  effect st st' -> lifecycleInvariant st -> lifecycleInvariant st'.
Proof.
  intros T Inv. destruct T as [| v | c ms Hne | n t Ht].
  - exact Inv.
  - exact Inv.
  - right. split; [reflexivity |]. cbn [messages timers].
    now exists (messages st), c, ms, (timers st).
  - left. split; [reflexivity |]. cbn [messages]. eexists _, _. reflexivity.
Qed.

Lemma reachable_lifecycleInvariant st : reachable st -> lifecycleInvariant st.
Proof.
  apply reachable_closed.
  - exact lifecycleInvariant_step.
  - left. split; [reflexivity |]. now exists [], seedGreeting.
Qed.

Lemma lastMessage_snoc pre m input isLoading timers :
  lastMessage (mkState (pre ++ [m]) input isLoading timers) = Some m.
Proof. unfold lastMessage. simpl. now rewrite rev_app_distr. Qed.

Lemma lastMessage_of_messages st pre m :
  messages st = pre ++ [m] -> lastMessage st = Some m.
Proof. unfold lastMessage. intros ->. now rewrite rev_app_distr. Qed.

Lemma user_neq_ai : user <> ai.
Proof. discriminate. Qed.

Lemma effect_appends st st' :
  effect st st' ->
  exists new, messages st' = messages st ++ new
              /\ Forall (fun m => role m = user \/ role m = ai) new
              /\ Forall (fun m => content m <> []) new.
Proof.
  intros [| v | c ms Hne | n t Ht]; simpl.
  - exists []. now rewrite app_nil_r.
  - exists []. now rewrite app_nil_r.
  - eexists. split; [reflexivity |].
    split; (constructor; [| constructor]); [now left | exact Hne].
  - eexists. split; [reflexivity |].
    split; (constructor; [| constructor]);
      [now right | apply ReplyProps.reply_not_empty].
Qed.

Lemma extends_step (st0 st st' : AppState) :
  effect st st' ->
  (exists new, messages st = messages st0 ++ new) ->
  exists new, messages st' = messages st0 ++ new.
Proof.
  intros T [new1 H1]. destruct (effect_appends st st' T) as [new2 [H2 _]].
  exists (new1 ++ new2). now rewrite H2, H1, app_assoc.
Qed.

Lemma runTasks_appends tasks st :
  exists new, messages (runTasks tasks st) = messages st ++ new.
Proof.
  apply (runTasks_closed
           (fun st' => exists new, messages st' = messages st ++ new)).
  - apply extends_step.
  - exists []. now rewrite app_nil_r.
Qed.

Lemma reachable_roles (st : AppState) :
  reachable st ->
  Forall (fun m => role m = user \/ role m = ai) (messages st).
Proof.
  apply (reachable_closed
           (fun s => Forall (fun m => role m = user \/ role m = ai)
                            (messages s))).
  - intros s s' T H. destruct (effect_appends s s' T) as [new [-> [Hn _]]].
    apply Forall_app. now split.
  - constructor; [now right | constructor].
Qed.

Lemma reachable_seeded (st : AppState) :
  reachable st -> exists rest, messages st = mkMessage ai seedGreeting :: rest.
Proof.
  apply (reachable_closed
           (fun s => exists rest, messages s = mkMessage ai seedGreeting :: rest)).
  - intros s s' T [rest H]. destruct (effect_appends s s' T) as [new [-> _]].
    exists (rest ++ new). now rewrite H.
  - now exists [].
Qed.

(** C1. A send whose trimmed input is not empty, made while no reply is
    awaited, followed by the expiry of the timer it registered, appends two
    messages to the history and no more: the [user] message holding the
    trimmed input, then the [ai] message holding what [getFakeAIReply]
    makes of it.  [isLoading] is true in between and false at the end. *)
Theorem submit_then_resolve rnd st :
  trim (input st) <> [] ->
  isLoading st = false ->
  let sent := snd (handleSendMsg rnd st) in
  let resolved := snd (fireTimer (List.length (timers st)) sent) in
  messages sent = messages st ++ [mkMessage user (trim (input st))]
  /\ isLoading sent = true
  /\ messages resolved
     = messages st ++ [mkMessage user (trim (input st));
                       mkMessage ai (getFakeAIReply (trim (input st)))]
  /\ isLoading resolved = false
  /\ List.length (messages resolved) = (List.length (messages st) + 2)%nat.
Proof.
  intros Hne Hidle. cbv zeta.
  rewrite (handleSendMsg_accepted rnd st Hne Hidle). cbn [snd].
  rewrite (fireTimer_some (List.length (timers st))
             (mkTimer (trim (input st)) (timeoutDelay rnd))).
  2:{ cbn [timers]. now rewrite nth_error_app2, Nat.sub_diag by lia. }
  cbn [snd messages isLoading trimmedInput].
  rewrite <- app_assoc. cbn [app].
  repeat split. rewrite length_app. reflexivity.
Qed.

(** The scenario of the specification: "hello" typed into the fresh
    component, sent, and answered. *)
Lemma submit_then_resolve_witness :
  let sent := snd (handleSendMsg Binary64.maxDraw helloTyped) in
  let resolved := snd (fireTimer 0 sent) in
  (isLoading sent = true /\ List.length (messages sent) = 2%nat)
  /\ (isLoading resolved = false /\ List.length (messages resolved) = 3%nat
      /\ option_map role (nth_error (messages resolved) 2) = Some ai).
Proof.
  assert (Hne : trim (input helloTyped) <> []) by (vm_compute; discriminate).
  destruct (submit_then_resolve Binary64.maxDraw helloTyped Hne eq_refl)
    as [H1 [H2 [H3 [H4 H5]]]].
  cbv zeta. split; [split | split; [| split]].
  - exact H2.
  - rewrite H1. reflexivity.
  - exact H4.
  - exact H5.
  - change (List.length (timers helloTyped)) with 0%nat in H3.
    rewrite H3. reflexivity.
Defined.

(** C2, as the specification has it, fails: the value [handleSendMsg]
    returns for a blank input is the value it returns while a reply is
    awaited, so no reading of it yields [EmptyInput] in the first case and
    [AlreadyPending] in the second. *)
Lemma handleSendMsg_no_error_signal :
  ~ exists decode : jsvoid -> SubmitOutcome,
      decode (fst (handleSendMsg Binary64.maxDraw blankInputState)) = EmptyInput
      /\ decode (fst (handleSendMsg Binary64.maxDraw busyState)) = AlreadyPending.
Proof.
  intros [decode [H1 H2]].
  change (decode undefined = EmptyInput) in H1.
  change (decode undefined = AlreadyPending) in H2.
  congruence.
Qed.

(** C2, amended. A send whose trimmed input is empty, or made while a
    reply is awaited, changes nothing in the state: messages, input,
    [isLoading] and timers stay as they were.  It returns [undefined],
    as every call of [handleSendMsg] does, accepted or not. *)
Theorem handleSendMsg_refusal_silent rnd st :
  trim (input st) = [] \/ isLoading st = true ->
  snd (handleSendMsg rnd st) = st
  /\ fst (handleSendMsg rnd st) = undefined
  /\ (forall rnd' st', fst (handleSendMsg rnd' st') = undefined).
Proof.
  intros H. rewrite (handleSendMsg_refused rnd st H).
  repeat split. intros rnd' st'. now destruct (fst (handleSendMsg rnd' st')).
Qed.

Lemma handleSendMsg_refusal_silent_witness :
  (snd (handleSendMsg Binary64.maxDraw blankInputState) = blankInputState
   /\ fst (handleSendMsg Binary64.maxDraw blankInputState) = undefined)
  /\ (snd (handleSendMsg Binary64.maxDraw busyState) = busyState
      /\ fst (handleSendMsg Binary64.maxDraw busyState) = undefined).
Proof.
  split.
  - destruct (handleSendMsg_refusal_silent Binary64.maxDraw blankInputState)
      as [H1 [H2 _]]; [left; reflexivity | now split].
  - destruct (handleSendMsg_refusal_silent Binary64.maxDraw busyState)
      as [H1 [H2 _]]; [right; reflexivity | now split].
Defined.

(** C5. In every state the component can reach, however many events
    reached it between two renders, [isLoading] is true exactly when the
    last message of the history is a [user] message.  That message is then
    unanswered: the timer that will reply to it is still pending.  When
    [isLoading] is false the last message is an [ai] message. *)
Theorem loading_iff_last_is_user st :
  reachable st ->
  (isLoading st = true <-> exists c, lastMessage st = Some (mkMessage user c))
  /\ (isLoading st = true ->
      exists c ms, lastMessage st = Some (mkMessage user c)
                   /\ In (mkTimer c ms) (timers st))
  /\ (isLoading st = false ->
      exists c, lastMessage st = Some (mkMessage ai c)).
Proof.
  intros R. pose proof (reachable_lifecycleInvariant st R) as Inv.
  destruct Inv as [[Hl [pre [c Hm]]] | [Hl [pre [c [ms [older [Hm Htm]]]]]]];
    pose proof (lastMessage_of_messages st pre _ Hm) as Hlast.
  - split; [split |].
    + congruence.
    + intros [c' Hc']. rewrite Hlast in Hc'. discriminate.
    + split; [congruence |]. intros _. now exists c.
  - split; [split |].
    + intros _. now exists c.
    + intros _. exact Hl.
    + split; [| congruence]. intros _. exists c, ms.
      split; [exact Hlast |]. rewrite Htm. apply in_or_app. right. now left.
Qed.

(** The invariant in the state two submissions handled by one render
    lead to, with its two [user] messages and two timers. *)
Lemma loading_iff_last_is_user_witness :
  isLoading sentTwiceState = true
  /\ exists c, lastMessage sentTwiceState = Some (mkMessage user c).
Proof.
  destruct (loading_iff_last_is_user sentTwiceState sentTwiceState_reachable)
    as [[H _] _].
  split; [reflexivity | apply H; reflexivity].
Defined.

Lemma handleSendMsgOf_messages render rnd st :
  messages (snd (handleSendMsgOf render rnd st)) = messages st
  \/ messages (snd (handleSendMsgOf render rnd st))
     = messages st ++ [mkMessage user (trim (input render))].
Proof.
  unfold handleSendMsgOf.
  destruct (isFalsy (trim (input render)) || isLoading render);
    [now left | now right].
Qed.

(** Which event appends which message. *)
Lemma deliver_messages render ev st :
  messages (deliver render ev st) = messages st
  \/ (((exists rnd, ev = OnSubmit rnd)
       \/ (exists key shiftKey rnd, ev = OnKeyDown key shiftKey rnd))
      /\ messages (deliver render ev st)
         = messages st ++ [mkMessage user (trim (input render))])
  \/ (exists n t,
        ev = TimerFires n
        /\ nth_error (timers st) n = Some t
        /\ messages (deliver render ev st)
           = messages st ++ [mkMessage ai (getFakeAIReply (trimmedInput t))]).
Proof.
  destruct ev as [v | rnd | key shiftKey rnd | n]; cbn [deliver].
  - now left.
  - destruct (handleSendMsgOf_messages render rnd st) as [H | H];
      [now left | right; left].
    split; [left; now exists rnd | exact H].
  - unfold handleKeyDownOf.
    destruct (eqb key (lit "Enter") && negb shiftKey); [| now left].
    destruct (handleSendMsgOf_messages render rnd st) as [H | H];
      [now left | right; left].
    split; [right; now exists key, shiftKey, rnd | exact H].
  - destruct (nth_error (timers st) n) as [t |] eqn:Ht.
    + right. right. exists n, t.
      rewrite (fireTimer_some n t st Ht). now repeat split.
    + left. unfold fireTimer. now rewrite Ht.
Qed.

(** C6. The seeded greeting carries role [ai].  An event leaves the
    history as it is or appends one message to it: a submission or a key
    press appends a message of role [user], holding the trimmed input of
    the render that handles it, and the expiry of a timer appends a message
    of role [ai], holding the reply to the utterance the timer captured.
    So every message of every reachable history has role [user] or role
    [ai], two different values.  And whatever tasks follow, the message at
    a position of the history stays the message at that position, role and
    content unchanged. *)
Theorem roles_enumerated_messages_immutable :
  messages initialState = [mkMessage ai seedGreeting]
  /\ (forall render ev st,
        messages (deliver render ev st) = messages st
        \/ (((exists rnd, ev = OnSubmit rnd)
             \/ (exists key shiftKey rnd, ev = OnKeyDown key shiftKey rnd))
            /\ messages (deliver render ev st)
               = messages st ++ [mkMessage user (trim (input render))])
        \/ (exists n t,
              ev = TimerFires n
              /\ nth_error (timers st) n = Some t
              /\ messages (deliver render ev st)
                 = messages st
                   ++ [mkMessage ai (getFakeAIReply (trimmedInput t))]))
  /\ (forall st, reachable st ->
        Forall (fun m => role m = user \/ role m = ai) (messages st))
  /\ user <> ai
  /\ (forall tasks st i m,
        nth_error (messages st) i = Some m ->
        nth_error (messages (runTasks tasks st)) i = Some m).
Proof.
  split; [reflexivity |]. split; [exact deliver_messages |].
  split; [exact reachable_roles |]. split; [exact user_neq_ai |].
  intros tasks st i m H. destruct (runTasks_appends tasks st) as [new ->].
  rewrite nth_error_app1; [exact H |].
  apply nth_error_Some. congruence.
Qed.

Lemma roles_enumerated_messages_immutable_witness :
  Forall (fun m => role m = user \/ role m = ai) (messages sentTwiceState)
  /\ nth_error (messages (runTasks [[TimerFires 0]; [TimerFires 0]]
                                   sentTwiceState)) 1
     = Some (mkMessage user (lit "hello")).
Proof.
  destruct roles_enumerated_messages_immutable as [_ [_ [H1 [_ H2]]]].
  split.
  - apply H1. exact sentTwiceState_reachable.
  - apply H2. reflexivity.
Defined.

(** C7, as the specification has it, fails.  With 2048 letters in the
    textarea, which its [maxLength] allows, the reply appended to the
    history has 2084 code units; and [handleSendMsg] appends an input of
    2049 letters at its full length. *)
Lemma content_exceeds_maxLength :
  option_map (fun m => List.length (content m))
    (lastMessage (run [OnChange (repeat 0x61%N 2048);
                       OnSubmit Binary64.maxDraw; TimerFires 0] initialState))
  = Some 2084%nat
  /\ option_map (fun m => List.length (content m))
       (lastMessage (run [OnChange (repeat 0x61%N 2049);
                          OnSubmit Binary64.maxDraw] initialState))
     = Some 2049%nat.
Proof. split; vm_compute; reflexivity. Qed.

Lemma echoReply_length (u : jsstring) :
  List.length (echoReply u) = (List.length u + 36)%nat.
Proof. unfold echoReply. rewrite !length_app. cbn. lia. Qed.

Lemma reply_length_bound (u : jsstring) :
  (List.length (getFakeAIReply u) <= Nat.max 76 (List.length u + 36))%nat.
Proof.
  unfold getFakeAIReply.
  destruct (includes (toLowerCase u) (lit "hello")
            || includes (toLowerCase u) (lit "hi")).
  { change (List.length greetingReply) with 32%nat. lia. }
  destruct (includes (toLowerCase u) (lit "weather")).
  { change (List.length weatherReply) with 55%nat. lia. }
  destruct (endsWith u (lit "?")).
  { change (List.length questionReply) with 76%nat. lia. }
  rewrite echoReply_length. lia.
Qed.

(** C7, amended. An accepted send and its reply append a [user] message
    whose content is the trimmed input, of at least one code unit and of no
    more than the textarea holds, hence of at most 2048 when the textarea
    respects its [maxLength]; [handleSendMsg] checks no length itself.  The
    [ai] message has at least one code unit and at most the larger of 76
    and the length of the trimmed input plus 36. *)
Theorem content_length_bounds rnd st :
  trim (input st) <> [] ->
  isLoading st = false ->
  let resolved :=
    snd (fireTimer (List.length (timers st)) (snd (handleSendMsg rnd st))) in
  exists u a,
    messages resolved = messages st ++ [mkMessage user u; mkMessage ai a]
    /\ u = trim (input st)
    /\ (1 <= List.length u <= List.length (input st))%nat
    /\ ((List.length (input st) <= maxLength)%nat ->
        (List.length u <= 2048)%nat)
    /\ (1 <= List.length a <= Nat.max 76 (List.length u + 36))%nat.
Proof.
  intros Hne Hidle. cbv zeta.
  rewrite (handleSendMsg_accepted rnd st Hne Hidle). cbn [snd].
  rewrite (fireTimer_some (List.length (timers st))
             (mkTimer (trim (input st)) (timeoutDelay rnd))).
  2:{ cbn [timers]. now rewrite nth_error_app2, Nat.sub_diag by lia. }
  cbn [snd messages trimmedInput]. rewrite <- app_assoc. cbn [app].
  exists (trim (input st)), (getFakeAIReply (trim (input st))).
  pose proof (trim_length (input st)) as Hle.
  pose proof (ReplyProps.reply_length_positive (trim (input st))).
  pose proof (reply_length_bound (trim (input st))).
  assert (1 <= List.length (trim (input st)))%nat.
  { destruct (trim (input st)); [congruence | simpl; lia]. }
  unfold maxLength. repeat split; try lia.
Qed.

Lemma content_length_bounds_witness :
  exists u a,
    messages (snd (fireTimer 0 (snd (handleSendMsg Binary64.maxDraw helloTyped))))
    = messages helloTyped ++ [mkMessage user u; mkMessage ai a]
    /\ (1 <= List.length u <= 2048)%nat
    /\ (1 <= List.length a)%nat.
Proof.
  assert (Hne : trim (input helloTyped) <> []) by (vm_compute; discriminate).
  destruct (content_length_bounds Binary64.maxDraw helloTyped Hne eq_refl)
    as [u [a [H1 [H2 [H3 [H4 H5]]]]]].
  exists u, a. split; [exact H1 |].
  assert (List.length (input helloTyped) <= maxLength)%nat
    by (vm_compute; repeat constructor).
  split; [split; [apply H3 | now apply H4] | apply H5].
Defined.

(** C8. The component starts with one message, the [ai] greeting, and
    with [isLoading] false; and the history of a reachable state always
    begins with that greeting, so it is never empty. *)
Theorem history_seeded_never_empty :
  messages initialState = [mkMessage ai seedGreeting]
  /\ isLoading initialState = false
  /\ (forall st, reachable st ->
        messages st <> []
        /\ exists rest, messages st = mkMessage ai seedGreeting :: rest).
Proof.
  split; [reflexivity | split; [reflexivity |]].
  intros st R. pose proof (reachable_seeded st R) as H.
  split; [| exact H]. destruct H as [rest ->]. discriminate.
Qed.

Lemma history_seeded_never_empty_witness :
  messages busyState <> []
  /\ exists rest, messages busyState = mkMessage ai seedGreeting :: rest.
Proof.
  destruct history_seeded_never_empty as [_ [_ H]].
  apply H. exact busyState_reachable.
Defined.

End LifecycleProps.

(* ================================================================== *)
(** ** The delay handed to [setTimeout] *)
(* ================================================================== *)

Module DelayProps.
Import Binary64 App.
Local Open Scope Z_scope.

Lemma digits2_pos_bounds (m : positive) :
  2 ^ (Zpos (digits2_pos m) - 1) <= Zpos m < 2 ^ Zpos (digits2_pos m).
Proof.
  induction m as [m IH | m IH |]; cbn [digits2_pos].
  - rewrite Pos2Z.inj_succ.
    replace (Z.succ (Zpos (digits2_pos m)) - 1)
      with (Z.succ (Zpos (digits2_pos m) - 1)) by lia.
    rewrite !Z.pow_succ_r by lia. lia.
  - rewrite Pos2Z.inj_succ.
    replace (Z.succ (Zpos (digits2_pos m)) - 1)
      with (Z.succ (Zpos (digits2_pos m) - 1)) by lia.
    rewrite !Z.pow_succ_r by lia. lia.
  - cbn. lia.
Qed.

Lemma Zdigits2_le (m k : Z) :
  0 <= k -> 0 <= m < 2 ^ k -> Zdigits2 m <= k.
Proof.
  intros Hk [H0 Hm]. destruct m as [| p | p]; cbn [Zdigits2]; [lia | | lia].
  pose proof (digits2_pos_bounds p) as [Hlo _].
  apply Z.lt_pred_le. rewrite <- Z.sub_1_r.
  apply (Z.pow_lt_mono_r_iff 2); lia.
Qed.

Lemma fexp_nonpos (d e : Z) : d + e <= prec -> fexp prec emax (d + e) <= 0.
Proof. unfold fexp, emin, prec, emax. lia. Qed.

Lemma pow2_pos (k : Z) : 0 <= k -> 0 < 2 ^ k.
Proof. intros. apply Z.pow_pos_nonneg; lia. Qed.

Lemma pow2_split (e k : Z) :
  0 <= k -> e + k <= 0 -> 2 ^ (- e) = 2 ^ (- (e + k)) * 2 ^ k.
Proof.
  intros Hk He. rewrite <- Z.pow_add_r by lia. f_equal. lia.
Qed.

Lemma shr_1_shiftedBy (M k : Z) (mrs : shr_record) :
  0 <= k -> shiftedBy M k mrs -> shiftedBy M (k + 1) (shr_1 mrs).
Proof.
  intros Hk [Hm [rem [HM [Hrem Hrs]]]].
  pose proof (pow2_pos k Hk) as HP.
  rewrite Z.add_1_r. unfold shiftedBy. rewrite Z.pow_succ_r by exact Hk.
  destruct mrs as [m r s]. cbn [shr_m shr_r shr_s] in *.
  destruct m as [| [p | p |] |]; cbn [shr_1 shr_m shr_r shr_s].
  - split; [lia |]. exists rem. split; [lia |]. split; [lia |].
    intros [H | H]; [discriminate |]. apply Hrs.
    destruct r; [now left | now right].
  - split; [lia |]. exists (rem + 2 ^ k). split; [lia |]. split; lia.
  - split; [lia |]. exists rem. split; [lia |]. split; [lia |].
    intros [H | H]; [discriminate |]. apply Hrs.
    destruct r; [now left | now right].
  - split; [lia |]. exists (rem + 2 ^ k). split; [lia |]. split; lia.
  - lia.
Qed.

Lemma iter_pos_shiftedBy (M : Z) (p : positive) :
  forall k mrs, 0 <= k -> shiftedBy M k mrs ->
  shiftedBy M (k + Zpos p) (iter_pos shr_1 p mrs).
Proof.
  induction p as [p IH | p IH |]; intros k mrs Hk H; cbn [iter_pos].
  - replace (k + Zpos p~1) with (k + 1 + Zpos p + Zpos p) by lia.
    apply IH; [lia |]. apply IH; [lia |]. now apply shr_1_shiftedBy.
  - replace (k + Zpos p~0) with (k + Zpos p + Zpos p) by lia.
    apply IH; [lia |]. now apply IH.
  - now apply shr_1_shiftedBy.
Qed.

Lemma shr_fexp_shiftedBy (m e : Z) :
  0 <= m ->
  exists k,
    0 <= k
    /\ snd (shr_fexp prec emax m e loc_Exact) = e + k
    /\ shiftedBy m k (fst (shr_fexp prec emax m e loc_Exact))
    /\ (k = 0 \/ e + k = fexp prec emax (Zdigits2 m + e)).
Proof.
  intros Hm. unfold shr_fexp, shr. cbn [shr_record_of_loc].
  assert (H0 : shiftedBy m 0 (Build_shr_record m false false)).
  { split; [exact Hm |]. exists 0. cbn [shr_m shr_r shr_s].
    split; [lia |]. split; [cbn; lia |]. intros [H | H]; discriminate. }
  destruct (fexp prec emax (Zdigits2 m + e) - e) as [| p | p] eqn:Hn;
    cbn [fst snd].
  - exists 0. rewrite Z.add_0_r. auto with zarith.
  - exists (Zpos p). split; [lia |]. split; [reflexivity |]. split.
    + apply (iter_pos_shiftedBy m p 0); [lia | exact H0].
    + right. lia.
  - exists 0. rewrite Z.add_0_r. auto with zarith.
Qed.

Lemma round_nearest_even_cases (mrs : shr_record) :
  round_nearest_even (shr_m mrs) (loc_of_shr_record mrs) = shr_m mrs
  \/ (round_nearest_even (shr_m mrs) (loc_of_shr_record mrs) = shr_m mrs + 1
      /\ shr_r mrs = true).
Proof.
  destruct mrs as [m [|] [|]]; cbn; auto.
  destruct (Z.even m); auto.
Qed.

(** Dividing [M] by [P] between two multiples of [P]. *)
Lemma quotient_between (q P rem lo hi : Z) :
  0 < P -> 0 <= rem < P ->
  lo * P <= q * P + rem <= hi * P ->
  lo <= q <= hi /\ (0 < rem -> q + 1 <= hi).
Proof. intros HP Hrem [Hlo Hhi]. repeat split; nia. Qed.

(** Rounding keeps a value between two bounds that are themselves
    integers at the exponent reached: [binary_round_aux] applied to
    [M * 2^e], with [lo <= M * 2^e <= hi] and [hi] below [2^53]. *)
Lemma binary_round_aux_inRange (lo hi : Z) (M : positive) (e : Z) :
  0 <= lo -> hi < 2 ^ prec -> e <= 0 ->
  lo * 2 ^ (- e) <= Zpos M <= hi * 2 ^ (- e) ->
  inRange lo hi (binary_round_aux prec emax false (Zpos M) e loc_Exact).
Proof.
  intros Hlo Hhi He HM. unfold binary_round_aux.
  (* first shift, to the exponent of the format *)
  destruct (shr_fexp_shiftedBy (Zpos M) e) as [k [Hk [He1 [[Hq [rem [Hsplit [Hrem Hrs]]]] Hexp1]]]];
    [lia |].
  destruct (shr_fexp prec emax (Zpos M) e loc_Exact) as [mrs1 e1].
  cbn [fst snd] in *. subst e1.
  pose proof (pow2_pos (- e) ltac:(lia)) as HE.
  pose proof (pow2_pos k Hk) as HP.
  assert (HM53 : 0 <= Zpos M < 2 ^ (prec - e)).
  { unfold Z.sub. rewrite Z.pow_add_r by (unfold prec; lia). nia. }
  assert (He1 : e + k <= 0).
  { destruct Hexp1 as [-> | ->]; [lia |]. apply fexp_nonpos.
    pose proof (Zdigits2_le (Zpos M) (prec - e) ltac:(unfold prec; lia) HM53).
    lia. }
  pose proof (pow2_pos (- (e + k)) ltac:(lia)) as HE1.
  rewrite (pow2_split e k Hk He1), !Z.mul_assoc, Hsplit in HM.
  destruct (quotient_between _ _ _ _ _ HP Hrem HM) as [Hq1 Hup].
  (* rounding to nearest, ties to even *)
  set (m1 := round_nearest_even (shr_m mrs1) (loc_of_shr_record mrs1)).
  assert (Hm1 : lo * 2 ^ (- (e + k)) <= m1 <= hi * 2 ^ (- (e + k)) /\ 0 <= m1).
  { destruct (round_nearest_even_cases mrs1) as [H | [H Hr]];
      fold m1 in H; rewrite H; [lia |].
    specialize (Hup (Hrs (or_introl Hr))). lia. }
  clearbody m1. clear Hq1 Hup Hsplit Hrs Hrem Hq HM53 HM rem mrs1 Hexp1.
  destruct Hm1 as [Hm1 Hm1pos].
  (* second shift, for a mantissa that rounding made one bit longer *)
  destruct (shr_fexp_shiftedBy m1 (e + k) Hm1pos)
    as [k2 [Hk2 [He2 [[Hq [rem [Hsplit [Hrem _]]]] Hexp2]]]].
  destruct (shr_fexp prec emax m1 (e + k) loc_Exact) as [mrs2 e2].
  cbn [fst snd] in *. subst e2.
  pose proof (pow2_pos k2 Hk2) as HP2.
  assert (HM53 : 0 <= m1 < 2 ^ (prec - (e + k))).
  { unfold Z.sub. rewrite Z.pow_add_r by (unfold prec; lia). nia. }
  assert (He2 : e + k + k2 <= 0).
  { destruct Hexp2 as [-> | ->]; [lia |]. apply fexp_nonpos.
    pose proof (Zdigits2_le m1 (prec - (e + k)) ltac:(unfold prec; lia) HM53).
    lia. }
  pose proof (pow2_pos (- (e + k + k2)) ltac:(lia)) as HE2.
  rewrite (pow2_split (e + k) k2 Hk2 He2), !Z.mul_assoc, Hsplit in Hm1.
  destruct (quotient_between _ _ _ _ _ HP2 Hrem Hm1) as [Hq2 _].
  destruct (shr_m mrs2) as [| m2 | m2]; [| | lia].
  - cbn [inRange]. nia.
  - replace (e + k + k2 <=? emax - prec) with true
      by (symmetry; apply Z.leb_le; unfold emax, prec; lia).
    cbn [inRange]. split; [exact He2 | exact Hq2].
Qed.

Lemma iter_xO_pow2 (m d : positive) :
  Zpos (Pos.iter xO m d) = Zpos m * 2 ^ Zpos d.
Proof.
  induction d as [| d IH] using Pos.peano_ind.
  - cbn. lia.
  - rewrite Pos.iter_succ, Pos2Z.inj_xO, IH, Pos2Z.inj_succ, Z.pow_succ_r; lia.
Qed.

(** [shl_align] only rewrites [m * 2^e] with a smaller exponent. *)
Lemma shl_align_value (m : positive) (e e' : Z) :
  snd (shl_align m e e') <= e
  /\ Zpos (fst (shl_align m e e')) = Zpos m * 2 ^ (e - snd (shl_align m e e'))
  /\ (e' <= e -> snd (shl_align m e e') = e').
Proof.
  unfold shl_align. destruct (e' - e) as [| d | d] eqn:Hd; cbn [fst snd].
  - rewrite Z.sub_diag. cbn. lia.
  - rewrite Z.sub_diag. cbn. lia.
  - rewrite iter_xO_pow2. replace (e - e') with (Zpos d) by lia. lia.
Qed.

Lemma inRange_shl_align (lo hi : Z) (m : positive) (e e' : Z) :
  e <= 0 ->
  lo * 2 ^ (- e) <= Zpos m <= hi * 2 ^ (- e) ->
  snd (shl_align m e e') <= 0
  /\ lo * 2 ^ (- snd (shl_align m e e')) <= Zpos (fst (shl_align m e e'))
     <= hi * 2 ^ (- snd (shl_align m e e')).
Proof.
  intros He H. destruct (shl_align_value m e e') as [Hle [Hv _]].
  split; [lia |]. rewrite Hv.
  set (e2 := snd (shl_align m e e')) in *.
  replace (- e2) with (- e + (e - e2)) by lia.
  rewrite Z.pow_add_r by lia.
  pose proof (pow2_pos (e - e2) ltac:(lia)). nia.
Qed.

Lemma ofZ_0 : ofZ 0 = S754_zero false.
Proof. reflexivity. Qed.

Lemma ofZ_1 : ofZ 1 = S754_finite false 4503599627370496 (-52).
Proof. vm_compute. reflexivity. Qed.

Lemma ofZ_1000 : ofZ 1000 = S754_finite false 8796093022208000 (-43).
Proof. vm_compute. reflexivity. Qed.

Lemma ofZ_1200 : ofZ 1200 = S754_finite false 5277655813324800 (-42).
Proof. vm_compute. reflexivity. Qed.

(** A draw of [Math.random] is a zero or a positive Number below 1. *)
Lemma isRandomDraw_cases (r : double) :
  isRandomDraw r = true ->
  (exists s, r = S754_zero s)
  \/ exists m e, r = S754_finite false m e /\ e < 0 /\ Zpos m < 2 ^ (- e).
Proof.
  unfold isRandomDraw. rewrite ofZ_0, ofZ_1, !andb_true_iff.
  intros [[Hv Hle] Hlt].
  destruct r as [s | s | | s m e].
  - left. now exists s.
  - (destruct s; discriminate).
  - discriminate.
  - right. (destruct s; [discriminate |]). exists m, e. split; [reflexivity |].
    clear Hle. unfold ltb, SFltb in Hlt. cbn [SFcompare] in Hlt.
    destruct (Z.compare_spec e (-52)) as [He | He | He].
    + subst e. clear Hv. split; [reflexivity |].
      destruct (Pos.compare_cont Eq m 4503599627370496) eqn:Hc;
        try discriminate.
      replace (2 ^ (- -52)) with 4503599627370496 by (vm_compute; reflexivity).
      exact Hc.
    + clear Hlt. split; [lia |].
      cbn [valid_binary] in Hv. unfold bounded, canonical_mantissa in Hv.
      apply andb_true_iff in Hv. destruct Hv as [Hc _].
      apply Z.eqb_eq in Hc. unfold fexp, emin, prec, emax in Hc.
      pose proof (digits2_pos_bounds m) as [_ Hm].
      apply Z.lt_le_trans with (1 := Hm).
      apply Z.pow_le_mono_r; lia.
    + discriminate.
Qed.

Lemma mul_1200_inRange (r : double) :
  isRandomDraw r = true -> inRange 0 1200 (mul r (ofZ 1200)).
Proof.
  intros H. rewrite ofZ_1200.
  destruct (isRandomDraw_cases r H) as [[s ->] | [m [e [-> [He Hm]]]]].
  - cbn. lia.
  - unfold mul. cbn [SFmul xorb].
    apply binary_round_aux_inRange; [lia | unfold prec; lia | lia |].
    rewrite Pos2Z.inj_mul.
    replace (- (e + -42)) with (- e + 42) by lia.
    rewrite Z.pow_add_r by lia.
    replace (2 ^ 42) with 4398046511104 by (vm_compute; reflexivity).
    lia.
Qed.

Lemma add_1000_inRange (p : double) :
  inRange 0 1200 p -> inRange 1000 2200 (add (ofZ 1000) p).
Proof.
  rewrite ofZ_1000.
  destruct p as [s | s | | [|] mp ep]; cbn [inRange]; try contradiction.
  - intros _. unfold add. cbn [SFadd inRange].
    split; [lia |]. vm_compute. split; discriminate.
  - intros [Hep Hmp]. unfold add. cbn [SFadd cond_Zopp].
    set (ez := Z.min (-43) ep).
    destruct (shl_align_value 8796093022208000 (-43) ez) as [_ [Hx Hxe]].
    destruct (shl_align_value mp ep ez) as [_ [Hy Hye]].
    rewrite Hxe in Hx by (unfold ez; lia). rewrite Hye in Hy by (unfold ez; lia).
    clear Hxe Hye.
    set (mx := fst (shl_align 8796093022208000 (-43) ez)) in *.
    set (my := fst (shl_align mp ep ez)) in *.
    rewrite <- Pos2Z.inj_add.
    cbn [binary_normalize]. unfold binary_round.
    assert (Hsum : 1000 * 2 ^ (- ez) <= Zpos (mx + my) <= 2200 * 2 ^ (- ez)).
    { rewrite Pos2Z.inj_add, Hx, Hy.
      assert (E1 : 2 ^ (- ez) = 8796093022208 * 2 ^ (-43 - ez)).
      { replace 8796093022208 with (2 ^ 43) by (vm_compute; reflexivity).
        rewrite <- Z.pow_add_r by (unfold ez; lia). f_equal. lia. }
      assert (E2 : 2 ^ (- ez) = 2 ^ (- ep) * 2 ^ (ep - ez))
        by (rewrite <- Z.pow_add_r by (unfold ez; lia); f_equal; lia).
      pose proof (pow2_pos (ep - ez) ltac:(unfold ez; lia)) as P1.
      pose proof (pow2_pos (-43 - ez) ltac:(unfold ez; lia)) as P2.
      clearbody ez mx my. clear Hx Hy.
      split.
      - rewrite E1. nia.
      - replace (2200 * 2 ^ (- ez))
          with (1000 * 2 ^ (- ez) + 1200 * 2 ^ (- ez)) by lia.
        rewrite E1 at 1. rewrite E2. nia. }
    pose proof (inRange_shl_align 1000 2200 (mx + my) ez
                  (fexp prec emax (Zpos (digits2_pos (mx + my)) + ez))
                  ltac:(unfold ez; lia) Hsum) as [Hz Hzb].
    destruct (shl_align (mx + my) ez
                (fexp prec emax (Zpos (digits2_pos (mx + my)) + ez))) as [mz ez'].
    cbn [fst snd] in *.
    apply binary_round_aux_inRange; [lia | unfold prec; lia | exact Hz | exact Hzb].
Qed.

Lemma timeoutDelay_inRange (r : double) :
  isRandomDraw r = true -> inRange 1000 2200 (timeoutDelay r).
Proof.
  intros H. unfold timeoutDelay.
  apply add_1000_inRange, mul_1200_inRange, H.
Qed.

(** C9, as the specification has it, fails.  For the largest Number
    below 1, [1 - 2^-53], the product [r * 1200] rounds to [1200 - 2^-42],
    and [1000] plus that, halfway between two Numbers, rounds to the even
    one: the delay is 2200, not below it.  The same happens for
    [1 - 2^-52], the largest draw of a generator that makes 52 bits. *)
Lemma delay_can_equal_2200 :
  (isRandomDraw maxDraw = true
   /\ timeoutDelay maxDraw = ofZ 2200
   /\ ltb (timeoutDelay maxDraw) (ofZ 2200) = false)
  /\ (isRandomDraw (S754_finite false 9007199254740990 (-53)) = true
      /\ timeoutDelay (S754_finite false 9007199254740990 (-53)) = ofZ 2200).
Proof. repeat split; vm_compute; reflexivity. Qed.

(** C9, amended.  For every draw [r] of [Math.random], a Number with
    [0 <= r < 1], the delay [1000 + r * 1200] as binary64 arithmetic
    computes it is a finite Number in the closed interval from 1000 to
    2200: never below 1000, never above 2200. *)
Theorem delay_within_1000_2200 (r : double) :
  isRandomDraw r = true -> inRange 1000 2200 (timeoutDelay r).
Proof. exact (timeoutDelay_inRange r). Qed.

Lemma delay_within_1000_2200_witness :
  inRange 1000 2200 (timeoutDelay (S754_finite false 4503599627370496 (-53))).
Proof.
  apply (delay_within_1000_2200 (S754_finite false 4503599627370496 (-53))).
  vm_compute. reflexivity.
Defined.

(** X1. Whatever [Math.random] draws, the delay [1000 + r * 1200] that
    binary64 arithmetic computes is a finite Number between 1000 and 2200,
    both included.  Both ends are reached: the draw 0 gives 1000, and for
    the largest Number below 1 the sum rounds, to even, up to 2200. *)
Theorem timeoutDelay_between_1000_and_2200 :
  (forall r, isRandomDraw r = true -> inRange 1000 2200 (timeoutDelay r))
  /\ (isRandomDraw (ofZ 0) = true /\ timeoutDelay (ofZ 0) = ofZ 1000)
  /\ (isRandomDraw maxDraw = true /\ timeoutDelay maxDraw = ofZ 2200
      /\ ltb (timeoutDelay maxDraw) (ofZ 2200) = false).
Proof.
  split; [| split].
  - exact timeoutDelay_inRange.
  - split; vm_compute; reflexivity.
  - repeat split; vm_compute; reflexivity.
Qed.

Lemma timeoutDelay_between_1000_and_2200_witness :
  inRange 1000 2200 (timeoutDelay maxDraw).
Proof.
  apply (proj1 timeoutDelay_between_1000_and_2200 maxDraw).
  vm_compute. reflexivity.
Defined.

Lemma In_removeNth {A} (n : nat) (l : list A) (x : A) :
  In x (removeNth n l) -> In x l.
Proof.
  unfold removeNth. rewrite in_app_iff.
  rewrite <- (firstn_skipn n l) at 3. rewrite in_app_iff.
  intros [H | H]; [now left | right].
  rewrite <- (firstn_skipn 1 (skipn n l)), in_app_iff. right.
  now rewrite skipn_skipn.
Qed.




End DelayProps.

(* ================================================================== *)
(** ** What [trim] leaves *)
(* ================================================================== *)

Module TrimFacts.
Import JsString JsStringFacts.

Lemma trimStart_snoc_kept (x : jsstring) (c : codeunit) :
  isWhiteSpace c = false -> trimStart (x ++ [c]) = trimStart x ++ [c].
Proof.
  intros Hc. induction x as [| a x IH]; cbn [app trimStart].
  - now rewrite Hc.
  - destruct (isWhiteSpace a); [exact IH | reflexivity].
Qed.

Lemma trimStart_snoc_blank (x : jsstring) (c : codeunit) :
  isWhiteSpace c = true ->
  trimStart (x ++ [c]) = if isFalsy (trimStart x) then [] else trimStart x ++ [c].
Proof.
  intros Hc. induction x as [| a x IH]; cbn [app trimStart].
  - now rewrite Hc.
  - destruct (isWhiteSpace a); [exact IH | reflexivity].
Qed.

Lemma isFalsy_rev (s : jsstring) : isFalsy (rev s) = isFalsy s.
Proof.
  destruct s as [| c s]; [reflexivity |]. cbn [rev isFalsy].
  destruct (rev s); reflexivity.
Qed.

(** [trimEnd], read from the front of the string. *)
Lemma trimEnd_cons (c : codeunit) (r : jsstring) :
  trimEnd (c :: r)
  = if isFalsy (trimEnd r) && isWhiteSpace c then [] else c :: trimEnd r.
Proof.
  unfold trimEnd. cbn [rev]. rewrite isFalsy_rev.
  destruct (isWhiteSpace c) eqn:Hc.
  - rewrite (trimStart_snoc_blank _ _ Hc), andb_true_r.
    destruct (isFalsy (trimStart (rev r))); [reflexivity |].
    now rewrite rev_app_distr.
  - rewrite (trimStart_snoc_kept _ _ Hc), andb_false_r.
    now rewrite rev_app_distr.
Qed.

Lemma trimEnd_nil : trimEnd [] = [].
Proof. reflexivity. Qed.

Lemma trimEnd_idempotent (s : jsstring) : trimEnd (trimEnd s) = trimEnd s.
Proof.
  induction s as [| c r IH]; [reflexivity |].
  rewrite trimEnd_cons.
  destruct (isFalsy (trimEnd r) && isWhiteSpace c) eqn:H; [reflexivity |].
  now rewrite trimEnd_cons, IH, H.
Qed.

Lemma trimStart_idempotent (s : jsstring) : trimStart (trimStart s) = trimStart s.
Proof.
  induction s as [| c r IH]; [reflexivity |]. cbn [trimStart].
  destruct (isWhiteSpace c) eqn:Hc; [exact IH |].
  cbn [trimStart]. now rewrite Hc.
Qed.

Lemma trimStart_length (s : jsstring) :
  (List.length (trimStart s) <= List.length s)%nat.
Proof.
  destruct (trimStart_suffix s) as [pre H]. rewrite H at 2.
  rewrite length_app. lia.
Qed.

Lemma trimStart_fixed_trimEnd (t : jsstring) :
  trimStart t = t -> trimStart (trimEnd t) = trimEnd t.
Proof.
  destruct t as [| c r]; [reflexivity |]. cbn [trimStart].
  destruct (isWhiteSpace c) eqn:Hc.
  - intros H. pose proof (trimStart_length r) as L.
    rewrite H in L. cbn [List.length] in L. lia.
  - intros _. rewrite trimEnd_cons, Hc, andb_false_r.
    cbn [trimStart]. now rewrite Hc.
Qed.

(** Trimming twice is trimming once. *)
Lemma trim_idempotent (s : jsstring) : trim (trim s) = trim s.
Proof.
  unfold trim.
  rewrite (trimStart_fixed_trimEnd _ (trimStart_idempotent s)).
  apply trimEnd_idempotent.
Qed.

Lemma trimStart_nil_iff (s : jsstring) :
  trimStart s = [] <-> forallb isWhiteSpace s = true.
Proof.
  induction s as [| c r IH]; cbn [trimStart forallb].
  - split; reflexivity.
  - destruct (isWhiteSpace c); cbn [andb]; [exact IH |].
    split; discriminate.
Qed.

Lemma forallb_rev {A} (f : A -> bool) (l : list A) :
  forallb f (rev l) = forallb f l.
Proof.
  induction l as [| a l IH]; [reflexivity |]. cbn [rev forallb].
  rewrite forallb_app, IH. cbn [forallb].
  rewrite andb_true_r. apply andb_comm.
Qed.

Lemma trimEnd_nil_iff (s : jsstring) :
  trimEnd s = [] <-> forallb isWhiteSpace s = true.
Proof.
  unfold trimEnd. rewrite <- (forallb_rev isWhiteSpace s), <- trimStart_nil_iff.
  split.
  - intros H. apply (f_equal (@rev _)) in H. now rewrite rev_involutive in H.
  - now intros ->.
Qed.

(** [trim] returns the empty string exactly for strings made of white
    space and line terminators only. *)
Lemma trim_nil_iff (s : jsstring) :
  trim s = [] <-> forallb isWhiteSpace s = true.
Proof.
  unfold trim. rewrite trimEnd_nil_iff, <- (trimStart_nil_iff s).
  rewrite <- trimStart_nil_iff. now rewrite trimStart_idempotent.
Qed.

End TrimFacts.

(* ================================================================== *)
(** ** The conversation as a whole *)
(* ================================================================== *)

Module ConversationProps.
Import JsString JsStringFacts TrimFacts App View LifecycleProps.

Lemma exchanges_snoc (cs : list jsstring) (c : jsstring) :
  exchanges (cs ++ [c])
  = exchanges cs ++ [mkMessage user c; mkMessage ai (getFakeAIReply c)].
Proof.
  induction cs as [| a cs IH]; [reflexivity |].
  cbn [app exchanges]. now rewrite IH.
Qed.

Lemma trimmed_isUtterance (s : jsstring) : trim s <> [] -> isUtterance (trim s).
Proof. intros H. split; [exact H | apply trim_idempotent]. Qed.

Lemma conversationShape_step (st st' : AppState) :
  transition st st' -> conversationShape st -> conversationShape st'.
Proof.
  intros T [cs [Hcs Shape]].
  destruct T as [| v | rnd Hne Hidle | n t Ht].
  - now exists cs.
  - now exists cs.
  - destruct Shape as [[_ [Htm Hm]] | [Hl _]]; [| congruence].
    exists cs. split; [exact Hcs |]. right. cbn [isLoading messages timers].
    split; [reflexivity |].
    exists (trim (input st)), (timeoutDelay rnd).
    split; [now apply trimmed_isUtterance |].
    now rewrite Hm, Htm.
  - destruct Shape as [[_ [Htm _]] | [_ [c [ms [Hc [Hm Htm]]]]]].
    + rewrite Htm in Ht. destruct n; discriminate.
    + rewrite Htm in Ht. destruct n as [| n]; [| destruct n; discriminate].
      injection Ht as <-.
      exists (cs ++ [c]). split; [apply Forall_app; split; auto |].
      left. cbn [isLoading messages timers trimmedInput].
      rewrite Htm, Hm, exchanges_snoc.
      repeat split. cbn [app]. now rewrite <- app_assoc.
Qed.

Lemma run_conversationShape (evs : list event) : forall st,
  conversationShape st -> conversationShape (run evs st).
Proof.
  induction evs as [| ev evs IH]; intros st H.
  - exact H.
  - rewrite run_cons. apply IH.
    exact (conversationShape_step st _ (dispatch_transition ev st) H).
Qed.

Lemma initial_conversationShape : conversationShape initialState.
Proof. exists []. split; [constructor |]. left. repeat split. Qed.

(** X3. When the events come one per task, the component rendering after
    each of them, the history is the greeting, then the exchanges held so
    far, each a [user] message with a trimmed, non-empty utterance followed
    by the [ai] message [getFakeAIReply] makes of it, then, while
    [isLoading] and only then, the utterance that awaits its reply, whose
    timer is the only one pending.  (Two submissions handled by one render
    break this shape: both are accepted.) *)
Theorem history_is_greeting_then_exchanges (evs : list event) (st : AppState) :
  st = run evs initialState ->
  exists cs,
    Forall isUtterance cs
    /\ ((isLoading st = false /\ timers st = []
         /\ messages st = mkMessage ai seedGreeting :: exchanges cs)
        \/ (isLoading st = true
            /\ exists c ms,
                 isUtterance c
                 /\ messages st
                    = mkMessage ai seedGreeting
                      :: exchanges cs ++ [mkMessage user c]
                 /\ timers st = [mkTimer c ms])).
Proof.
  intros ->. apply run_conversationShape, initial_conversationShape.
Qed.

Lemma history_is_greeting_then_exchanges_witness :
  exists cs,
    Forall isUtterance cs
    /\ ((isLoading busyState = false /\ timers busyState = []
         /\ messages busyState = mkMessage ai seedGreeting :: exchanges cs)
        \/ (isLoading busyState = true
            /\ exists c ms,
                 isUtterance c
                 /\ messages busyState
                    = mkMessage ai seedGreeting
                      :: exchanges cs ++ [mkMessage user c]
                 /\ timers busyState = [mkTimer c ms])).
Proof.
  apply (history_is_greeting_then_exchanges
           [OnChange (lit "hello"); OnSubmit Binary64.maxDraw] busyState).
  reflexivity.
Defined.

(** Positions in a list of exchanges, possibly followed by a pending
    utterance: [user] messages at the even ones, each followed by its
    reply unless it is the pending one, and replies at the odd ones. *)
Lemma exchanges_positions (cs : list jsstring) (pending : list Message)
  (loading : bool) :
  Forall isUtterance cs ->
  (pending = [] /\ loading = false
   \/ exists c, isUtterance c /\ pending = [mkMessage user c] /\ loading = true) ->
  forall i m,
    nth_error (exchanges cs ++ pending) i = Some m ->
    (Nat.even i = true ->
     role m = user /\ isUtterance (content m)
     /\ match nth_error (exchanges cs ++ pending) (S i) with
        | Some m' => m' = mkMessage ai (getFakeAIReply (content m))
        | None => loading = true
        end)
    /\ (Nat.even i = false ->
        exists u, nth_error (exchanges cs ++ pending) (Nat.pred i)
                  = Some (mkMessage user u)
                  /\ m = mkMessage ai (getFakeAIReply u)).
Proof.
  intros Hcs Hp. induction Hcs as [| c cs Hc Hcs IH]; intros i m Hi.
  - cbn [exchanges app] in *.
    destruct Hp as [[-> _] | [c [Hc [-> ->]]]]; [destruct i; discriminate |].
    destruct i as [| i]; [| destruct i; discriminate].
    injection Hi as <-. split; [| discriminate].
    intros _. repeat split; apply Hc.
  - cbn [exchanges app] in *.
    destruct i as [| [| i]].
    + injection Hi as <-. split; [| discriminate].
      intros _. repeat split; apply Hc.
    + injection Hi as <-. split; [discriminate |].
      intros _. now exists c.
    + cbn [nth_error] in Hi. specialize (IH i m Hi).
      change (Nat.even (S (S i))) with (Nat.even i).
      destruct IH as [IHe IHo]. split.
      * exact IHe.
      * intros Ho. destruct (IHo Ho) as [u [Hu ->]].
        exists u. split; [| reflexivity].
        destruct i as [| i]; [discriminate |]. exact Hu.
Qed.

(** X4. When the events come one per task, the component rendering after
    each of them, the messages after the greeting alternate:
    at positions 1, 3, 5, ... a [user] message holding a trimmed,
    non-empty utterance, which is followed by the reply to it or else is
    the last message while [isLoading]; at positions 2, 4, 6, ... the [ai]
    message [getFakeAIReply] makes of the message just before. *)
Theorem replies_follow_their_messages (evs : list event) (st : AppState) :
  st = run evs initialState ->
  forall i m,
    nth_error (messages st) (S i) = Some m ->
    (Nat.even i = true ->
     role m = user /\ isUtterance (content m)
     /\ match nth_error (messages st) (S (S i)) with
        | Some m' => m' = mkMessage ai (getFakeAIReply (content m))
        | None => isLoading st = true
        end)
    /\ (Nat.even i = false ->
        exists u, nth_error (messages st) i = Some (mkMessage user u)
                  /\ m = mkMessage ai (getFakeAIReply u)).
Proof.
  intros Hst i m Hi.
  destruct (run_conversationShape evs initialState initial_conversationShape)
    as [cs [Hcs Shape]].
  rewrite <- Hst in Shape.
  assert (H : exists pending,
             messages st = mkMessage ai seedGreeting :: exchanges cs ++ pending
             /\ (pending = [] /\ isLoading st = false
                 \/ exists c, isUtterance c /\ pending = [mkMessage user c]
                              /\ isLoading st = true)).
  { destruct Shape as [[Hl [_ Hm]] | [Hl [c [ms [Hc [Hm _]]]]]].
    - exists []. rewrite app_nil_r. auto.
    - exists [mkMessage user c]. split; [exact Hm |]. right. now exists c. }
  destruct H as [pending [Hm Hp]]. rewrite Hm in *. cbn [nth_error] in *.
  destruct (exchanges_positions cs pending (isLoading st) Hcs Hp i m Hi)
    as [He Ho].
  split; [exact He |].
  intros Hodd. destruct (Ho Hodd) as [u [Hu ->]]. exists u.
  split; [| reflexivity].
  destruct i as [| i]; [discriminate |]. exact Hu.
Qed.

Lemma replies_follow_their_messages_witness :
  exists m,
    nth_error (messages busyState) 1 = Some m
    /\ role m = user /\ isUtterance (content m).
Proof.
  destruct (replies_follow_their_messages
              [OnChange (lit "hello"); OnSubmit Binary64.maxDraw] busyState
              eq_refl 0 (mkMessage user (lit "hello")) eq_refl) as [H _].
  exists (mkMessage user (lit "hello")).
  split; [reflexivity |]. destruct (H eq_refl) as [H1 [H2 _]]. now split.
Defined.

End ConversationProps.

(* ================================================================== *)
(** ** Sending, refusing and waiting *)
(* ================================================================== *)

Module SendProps.
Import JsString JsStringFacts TrimFacts App View LifecycleProps.

Lemma accepted_state_differs rnd st :
  trim (input st) <> [] -> isLoading st = false ->
  snd (handleSendMsg rnd st) <> st.
Proof.
  intros Hne Hidle H. rewrite (handleSendMsg_accepted rnd st Hne Hidle) in H.
  cbn [snd] in H. apply (f_equal isLoading) in H. cbn in H. congruence.
Qed.

Lemma trim_nil_dec (s : jsstring) : {trim s = []} + {trim s <> []}.
Proof. apply (list_eq_dec N.eq_dec). Qed.

Lemma handleSendMsg_refused_iff rnd st :
  snd (handleSendMsg rnd st) = st
  <-> isFalsy (trim (input st)) || isLoading st = true.
Proof.
  rewrite orb_true_iff, isFalsy_true_iff. split.
  - intros H. destruct (trim_nil_dec (input st)) as [He | Hne]; [now left |].
    destruct (isLoading st) eqn:Hl; [now right |].
    now apply accepted_state_differs in H.
  - intros H. now rewrite (handleSendMsg_refused rnd st H).
Qed.

(** X5. [handleSendMsg] leaves the state as it is exactly when the input
    consists of white space and line terminators only (the empty input
    included) or a reply is awaited.  In every other case it appends the
    trimmed input as a [user] message, empties the input and sets
    [isLoading]. *)
Theorem handleSendMsg_refuses_iff_blank_or_loading rnd st :
  (snd (handleSendMsg rnd st) = st
   <-> forallb isWhiteSpace (input st) = true \/ isLoading st = true)
  /\ (snd (handleSendMsg rnd st) <> st ->
      messages (snd (handleSendMsg rnd st))
      = messages st ++ [mkMessage user (trim (input st))]
      /\ input (snd (handleSendMsg rnd st)) = []
      /\ isLoading (snd (handleSendMsg rnd st)) = true).
Proof.
  rewrite <- trim_nil_iff.
  destruct (trim_nil_dec (input st)) as [He | Hne].
  { rewrite (handleSendMsg_refused rnd st (or_introl He)). cbn [snd].
    split; [split; [intros _; now left | reflexivity] |].
    intros H. now destruct H. }
  destruct (isLoading st) eqn:Hl.
  { rewrite (handleSendMsg_refused rnd st (or_intror Hl)). cbn [snd].
    split; [split; [intros _; now right | reflexivity] |].
    intros H. now destruct H. }
  split.
  - split.
    + intros H. now apply accepted_state_differs in H.
    + intros [H | H]; congruence.
  - intros _. rewrite (handleSendMsg_accepted rnd st Hne Hl). now cbn.
Qed.

(** X6. The [isLoading] guard works from one render to the next, not
    within one.  Two submissions with a render in between have the effect
    of the first alone: the second finds [isLoading] set, or the same
    refusal as the first.  Two submissions handled by one render that
    accepts them are both accepted: the same trimmed input is appended
    twice and two timers are registered. *)
Theorem submit_twice_once_only_across_renders rnd1 rnd2 st :
  runTasks [[OnSubmit rnd1]; [OnSubmit rnd2]] st = runTasks [[OnSubmit rnd1]] st
  /\ (trim (input st) <> [] -> isLoading st = false ->
      runTask [OnSubmit rnd1; OnSubmit rnd2] st
      = mkState (messages st ++ [mkMessage user (trim (input st));
                                 mkMessage user (trim (input st))])
                [] true
                (timers st ++ [mkTimer (trim (input st)) (timeoutDelay rnd1);
                               mkTimer (trim (input st)) (timeoutDelay rnd2)])).
Proof.
  split.
  - unfold runTasks. cbn [fold_left]. rewrite !runTask_single. cbn [dispatch].
    destruct (trim_nil_dec (input st)) as [He | Hne].
    { rewrite (handleSendMsg_refused rnd1 st (or_introl He)). cbn [snd].
      now rewrite (handleSendMsg_refused rnd2 st (or_introl He)). }
    destruct (isLoading st) eqn:Hl.
    { rewrite (handleSendMsg_refused rnd1 st (or_intror Hl)). cbn [snd].
      now rewrite (handleSendMsg_refused rnd2 st (or_intror Hl)). }
    rewrite (handleSendMsg_accepted rnd1 st Hne Hl). cbn [snd].
    now rewrite handleSendMsg_refused by (right; reflexivity).
  - intros Hne Hl. unfold runTask. cbn [fold_left deliver].
    unfold handleSendMsgOf. rewrite Hl, orb_false_r.
    destruct (trim (input st)) as [| c s] eqn:Hc; [congruence |].
    cbn. now rewrite <- !app_assoc.
Qed.

Lemma submit_twice_once_only_across_renders_witness :
  sentTwiceState
  = mkState (messages helloTyped ++ [mkMessage user (lit "hello");
                                     mkMessage user (lit "hello")])
            [] true
            [mkTimer (lit "hello") (timeoutDelay Binary64.maxDraw);
             mkTimer (lit "hello") (timeoutDelay Binary64.maxDraw)].
Proof.
  apply (proj2 (submit_twice_once_only_across_renders
                  Binary64.maxDraw Binary64.maxDraw helloTyped));
    [vm_compute; discriminate | reflexivity].
Defined.

(** X7. While a reply is awaited nothing but the expiry of a timer touches the
    conversation: typing, key presses and submissions leave the messages,
    [isLoading] and the pending timers as they are. *)
Theorem loading_locks_conversation st ev :
  isLoading st = true ->
  (forall n, ev <> TimerFires n) ->
  messages (dispatch ev st) = messages st
  /\ isLoading (dispatch ev st) = true
  /\ timers (dispatch ev st) = timers st.
Proof.
  intros Hl Hev. destruct ev as [v | rnd | key shiftKey rnd | n]; cbn [dispatch].
  - now cbn.
  - rewrite (handleSendMsg_refused rnd st (or_intror Hl)). now cbn.
  - unfold handleKeyDown. destruct (eqb key (lit "Enter") && negb shiftKey).
    + rewrite (handleSendMsg_refused rnd st (or_intror Hl)). now cbn.
    + now cbn.
  - now destruct (Hev n).
Qed.

Lemma loading_locks_conversation_witness :
  messages (dispatch (OnChange (lit "again")) busyState) = messages busyState
  /\ isLoading (dispatch (OnChange (lit "again")) busyState) = true
  /\ timers (dispatch (OnChange (lit "again")) busyState) = timers busyState.
Proof.
  apply (loading_locks_conversation busyState (OnChange (lit "again")));
    [reflexivity | discriminate].
Defined.

(** X8. A reply that is awaited can always come: in a reachable state
    with [isLoading] set, the last message is a [user] message, the latest
    pending timer is the one registered with it, and the expiry of that
    timer appends the reply to that message and clears [isLoading],
    leaving the older timers pending. *)
Theorem awaited_reply_arrives st :
  reachable st ->
  isLoading st = true ->
  exists c ms older,
    lastMessage st = Some (mkMessage user c)
    /\ timers st = older ++ [mkTimer c ms]
    /\ dispatch (TimerFires (List.length older)) st
       = mkState (messages st ++ [mkMessage ai (getFakeAIReply c)])
                 (input st) false older.
Proof.
  intros R Hl.
  destruct (reachable_lifecycleInvariant st R)
    as [[Hl' _] | [_ [pre [c [ms [older [Hm Htm]]]]]]]; [congruence |].
  exists c, ms, older.
  split; [exact (lastMessage_of_messages st pre _ Hm) |].
  split; [exact Htm |].
  cbn [dispatch].
  rewrite (fireTimer_some (List.length older) (mkTimer c ms) st).
  - cbn [snd trimmedInput]. now rewrite Htm, removeNth_last.
  - now rewrite Htm, nth_error_app2, Nat.sub_diag by lia.
Qed.

Lemma awaited_reply_arrives_witness :
  exists c ms older,
    lastMessage sentTwiceState = Some (mkMessage user c)
    /\ timers sentTwiceState = older ++ [mkTimer c ms]
    /\ dispatch (TimerFires (List.length older)) sentTwiceState
       = mkState (messages sentTwiceState ++ [mkMessage ai (getFakeAIReply c)])
                 (input sentTwiceState) false older.
Proof.
  apply (awaited_reply_arrives sentTwiceState);
    [exact sentTwiceState_reachable | reflexivity].
Defined.

(** X9. A key press changes the history exactly when the key is Enter, Shift
    is not held, the trimmed input is not empty and no reply is awaited;
    it then does what submitting the form does.  Any other key press
    leaves the whole state as it is. *)
Theorem handleKeyDown_sends_iff key shiftKey rnd st :
  (messages (dispatch (OnKeyDown key shiftKey rnd) st) <> messages st
   <-> key = lit "Enter" /\ shiftKey = false
       /\ trim (input st) <> [] /\ isLoading st = false)
  /\ (key = lit "Enter" /\ shiftKey = false ->
      dispatch (OnKeyDown key shiftKey rnd) st = dispatch (OnSubmit rnd) st)
  /\ (key <> lit "Enter" \/ shiftKey = true ->
      dispatch (OnKeyDown key shiftKey rnd) st = st).
Proof.
  cbn [dispatch]. unfold handleKeyDown.
  destruct (eqb key (lit "Enter")) eqn:Hk.
  - apply eqb_true_iff in Hk. destruct shiftKey; cbn [andb negb].
    + split; [| split].
      * unfold ret. cbn [snd].
        split; [intros H; now destruct H | intros [_ [H _]]; discriminate].
      * intros [_ H]. discriminate.
      * reflexivity.
    + split; [| split].
      * destruct (trim_nil_dec (input st)) as [He | Hne].
        { rewrite (handleSendMsg_refused rnd st (or_introl He)). cbn.
          split; [congruence | tauto]. }
        destruct (isLoading st) eqn:Hl.
        { rewrite (handleSendMsg_refused rnd st (or_intror Hl)). cbn.
          split; [congruence | intros [_ [_ [_ H]]]; discriminate]. }
        rewrite (handleSendMsg_accepted rnd st Hne Hl). cbn [snd messages].
        split; [now intros _ |]. intros _ H.
        apply (f_equal (@List.length _)) in H.
        rewrite length_app in H. cbn in H. lia.
      * reflexivity.
      * intros [H | H]; [congruence | discriminate].
  - assert (Hne : key <> lit "Enter").
    { intros H. apply eqb_true_iff in H. congruence. }
    cbn [andb]. split; [| split].
    + unfold ret. cbn [snd].
      split; [intros H; now destruct H | intros [H _]; contradiction].
    + intros [H _]. contradiction.
    + reflexivity.
Qed.

End SendProps.

(* ================================================================== *)
(** ** Which rule a reply comes from *)
(* ================================================================== *)

Module ReplyRuleProps.
Import JsString JsStringFacts App.

Lemma echoReply_head (u : jsstring) : exists tl, echoReply u = 0x59%N :: tl.
Proof. unfold echoReply. cbn [lit list_ascii_of_string map app]. eexists. reflexivity. Qed.

Lemma echoReply_not_canned (u : jsstring) :
  echoReply u <> greetingReply
  /\ echoReply u <> weatherReply
  /\ echoReply u <> questionReply.
Proof.
  destruct (echoReply_head u) as [tl ->]. repeat split; discriminate.
Qed.

Lemma canned_replies_differ :
  greetingReply <> weatherReply
  /\ greetingReply <> questionReply
  /\ weatherReply <> questionReply.
Proof. repeat split; discriminate. Qed.

(** The template of the echo reply loses nothing: two utterances with
    the same echo reply are the same utterance. *)
Lemma echoReply_injective (u v : jsstring) : echoReply u = echoReply v -> u = v.
Proof.
  unfold echoReply. intros H.
  apply app_inv_head in H. apply app_inv_head in H.
  now apply app_inv_tail in H.
Qed.

(** X10. The reply tells which rule produced it.  [getFakeAIReply] returns the
    greeting reply exactly for the utterances that, lower-cased, include
    "hello" or "hi"; the weather reply exactly for those that include
    neither but include "weather"; the question reply exactly for those
    that include none of the three and end with "?"; the echo of the
    utterance in the one remaining case.  And the echo reply determines the
    utterance it echoes. *)
Theorem reply_tells_its_rule (u : jsstring) :
  (getFakeAIReply u = greetingReply
   <-> includes (toLowerCase u) (lit "hello") = true
       \/ includes (toLowerCase u) (lit "hi") = true)
  /\ (getFakeAIReply u = weatherReply
      <-> includes (toLowerCase u) (lit "hello") = false
          /\ includes (toLowerCase u) (lit "hi") = false
          /\ includes (toLowerCase u) (lit "weather") = true)
  /\ (getFakeAIReply u = questionReply
      <-> includes (toLowerCase u) (lit "hello") = false
          /\ includes (toLowerCase u) (lit "hi") = false
          /\ includes (toLowerCase u) (lit "weather") = false
          /\ endsWith u (lit "?") = true)
  /\ (getFakeAIReply u = echoReply u
      <-> includes (toLowerCase u) (lit "hello") = false
          /\ includes (toLowerCase u) (lit "hi") = false
          /\ includes (toLowerCase u) (lit "weather") = false
          /\ endsWith u (lit "?") = false)
  /\ (forall v, getFakeAIReply u = echoReply v -> v = u).
Proof.
  destruct (echoReply_not_canned u) as [E1 [E2 E3]].
  destruct canned_replies_differ as [D1 [D2 D3]].
  assert (Hv : forall v, echoReply u = echoReply v -> v = u)
    by (intros v H; symmetry; now apply echoReply_injective).
  assert (Hc : forall v, greetingReply <> echoReply v
                         /\ weatherReply <> echoReply v
                         /\ questionReply <> echoReply v).
  { intros v. destruct (echoReply_not_canned v) as [A [B C]].
    repeat split; congruence. }
  unfold getFakeAIReply.
  destruct (includes (toLowerCase u) (lit "hello")),
           (includes (toLowerCase u) (lit "hi")),
           (includes (toLowerCase u) (lit "weather")),
           (endsWith u (lit "?"));
    cbn [orb];
    (repeat split;
     try (intros v Hr; destruct (Hc v) as [A [B C]]; solve [congruence | auto]);
     intuition congruence).
Qed.

(** X11. A word inside a word is enough for the greeting: whatever surrounds
    it, a run of code units that lower-cases to "hi" or to "hello" makes
    [getFakeAIReply] return the greeting reply. *)
Theorem greeting_for_any_embedded_hi (pre w post : jsstring) :
  toLowerCase w = lit "hi" \/ toLowerCase w = lit "hello" ->
  getFakeAIReply (pre ++ w ++ post) = greetingReply.
Proof.
  intros H. unfold getFakeAIReply.
  destruct H as [H | H];
    rewrite (includes_toLowerCase_factor pre w post _ H);
    [now rewrite orb_true_r | reflexivity].
Qed.

Lemma greeting_for_any_embedded_hi_witness :
  getFakeAIReply (lit "Nothing to add, t" ++ lit "HI" ++ lit "s is fine.")
  = greetingReply.
Proof.
  apply (greeting_for_any_embedded_hi
           (lit "Nothing to add, t") (lit "HI") (lit "s is fine.")).
  left. reflexivity.
Defined.

End ReplyRuleProps.

(* ================================================================== *)
(** ** The rendered page *)
(* ================================================================== *)

Module ViewProps.
Import JsString JsStringFacts TrimFacts App View LifecycleProps.

(** [ChatMessage] shows the content unchanged. *)
Lemma ChatMessage_textContent (r c : jsstring) :
  textContent (ChatMessage r c) = c.
Proof. cbn. now rewrite !app_nil_r. Qed.

(** X12. Every message of a reachable history is drawn in the style of its
    author: the class of its row ends with the role itself, the class of
    its bubble is built on it, and the bubble holds the content and nothing
    else.  ([ChatMessage] gives every role other than "ai" the style of
    "user"; no such role occurs.) *)
Theorem bubbles_styled_by_role (st : AppState) :
  reachable st ->
  forall m, In m (messages st) ->
    getProp "className" (ChatMessage (role m) (content m))
    = Some (PStr (lit "chatbot-msg chatbot-msg-" ++ role m))
    /\ children (ChatMessage (role m) (content m))
       = [Elem "div"
            [className (lit "chatbot-" ++ role m ++ lit "-bubble")]
            [Text (content m)]].
Proof.
  intros R m Hm.
  pose proof (reachable_roles st R) as Hroles.
  rewrite Forall_forall in Hroles.
  destruct (Hroles m Hm) as [-> | ->]; split; reflexivity.
Qed.

Lemma bubbles_styled_by_role_witness :
  getProp "className" (ChatMessage user (lit "hello"))
  = Some (PStr (lit "chatbot-msg chatbot-msg-user")).
Proof.
  apply (bubbles_styled_by_role busyState busyState_reachable
           (mkMessage user (lit "hello"))).
  right. left. reflexivity.
Defined.

Lemma textContent_bubbles (msgs : list Message) :
  flat_map textContent
    (map (fun msg => ChatMessage (role msg) (content msg)) msgs)
  = flat_map content msgs.
Proof.
  induction msgs as [| m msgs IH]; [reflexivity |].
  cbn [map flat_map]. now rewrite IH, ChatMessage_textContent.
Qed.

(** X13. The text of the message log is the contents of the messages, in the
    order of the history and unchanged, followed by three dots exactly
    while a reply is awaited. *)
Theorem messagesLog_textContent (st : AppState) :
  textContent (messagesLog st)
  = flat_map content (messages st)
    ++ (if isLoading st then lit "..." else []).
Proof.
  unfold messagesLog. cbn [textContent].
  rewrite !flat_map_app, textContent_bubbles.
  destruct (isLoading st); cbn; now rewrite ?app_nil_r.
Qed.

Lemma isDisabled_textarea (st : AppState) :
  isDisabled (textarea st) = isLoading st.
Proof. reflexivity. Qed.

Lemma isDisabled_sendButton (st : AppState) :
  isDisabled (sendButton st) = isFalsy (trim (input st)) || isLoading st.
Proof. reflexivity. Qed.

Lemma withinMaxLength_textarea (st : AppState) (n : nat) :
  withinMaxLength (textarea st) n = (Z.of_nat n <=? 2048)%Z.
Proof. reflexivity. Qed.

(** X14. The page and the handler agree: the send button is disabled exactly
    in the states in which [handleSendMsg] would leave everything as it
    is, and the textarea, which shows the input, is disabled exactly while
    a reply is awaited. *)
Theorem send_button_disabled_iff_send_refused rnd st :
  (isDisabled (sendButton st) = true <-> snd (handleSendMsg rnd st) = st)
  /\ (isDisabled (sendButton st) = false
      <-> messages (snd (handleSendMsg rnd st))
          = messages st ++ [mkMessage user (trim (input st))])
  /\ isDisabled (textarea st) = isLoading st
  /\ getProp "value" (textarea st) = Some (PStr (input st)).
Proof.
  rewrite isDisabled_sendButton.
  split; [symmetry; apply SendProps.handleSendMsg_refused_iff |].
  split; [| split; reflexivity].
  destruct (isFalsy (trim (input st)) || isLoading st) eqn:H.
  - rewrite (proj2 (SendProps.handleSendMsg_refused_iff rnd st) H).
    split; [discriminate |]. intros E.
    apply (f_equal (@List.length _)) in E.
    rewrite length_app in E. cbn in E. lia.
  - apply orb_false_iff in H. destruct H as [H1 H2].
    assert (Hne : trim (input st) <> []).
    { intros E. apply isFalsy_true_iff in E. congruence. }
    rewrite (handleSendMsg_accepted rnd st Hne H2). now cbn.
Qed.

Lemma uiInvariant_send rnd st :
  uiInvariant st -> uiInvariant (snd (handleSendMsg rnd st)).
Proof.
  intros Inv.
  destruct (SendProps.trim_nil_dec (input st)) as [He | Hne].
  { now rewrite (handleSendMsg_refused rnd st (or_introl He)). }
  destruct (isLoading st) eqn:Hl.
  { now rewrite (handleSendMsg_refused rnd st (or_intror Hl)). }
  rewrite (handleSendMsg_accepted rnd st Hne Hl). cbn [snd].
  destruct Inv as [Hin [_ [Hms Hts]]].
  pose proof (trim_length (input st)) as Hle.
  assert (1 <= List.length (trim (input st)))%nat.
  { destruct (trim (input st)); [congruence | cbn; lia]. }
  unfold uiInvariant. cbn [input isLoading messages timers].
  split; [cbn; lia |]. split; [reflexivity |]. split.
  - apply Forall_app. split; [exact Hms |].
    constructor; [| constructor]. cbn [content role]. split; [lia |]. lia.
  - apply Forall_app. split; [exact Hts |].
    constructor; [| constructor]. cbn [trimmedInput]. lia.
Qed.

Lemma uiInvariant_step st ev :
  uiEnabled st ev = true -> uiInvariant st -> uiInvariant (dispatch ev st).
Proof.
  intros Hen Inv.
  destruct ev as [v | rnd | key shiftKey rnd | n]; cbn [dispatch uiEnabled] in *.
  - rewrite isDisabled_textarea, withinMaxLength_textarea in Hen.
    apply andb_true_iff in Hen. destruct Hen as [Hl Hv].
    apply negb_true_iff in Hl. apply Z.leb_le in Hv.
    destruct Inv as [_ [_ [Hms Hts]]].
    unfold uiInvariant. cbn.
    split; [lia |]. split; [congruence |]. now split.
  - now apply uiInvariant_send.
  - unfold handleKeyDown. destruct (eqb key (lit "Enter") && negb shiftKey).
    + now apply uiInvariant_send.
    + exact Inv.
  - apply Nat.ltb_lt in Hen.
    destruct (nth_error (timers st) n) as [t |] eqn:Ht.
    2:{ apply nth_error_None in Ht. lia. }
    rewrite (fireTimer_some n t st Ht). cbn [snd].
    destruct Inv as [Hin [_ [Hms Hts]]].
    assert (Ht' : (List.length (trimmedInput t) <= 2048)%nat).
    { rewrite Forall_forall in Hts. apply Hts. now apply nth_error_In in Ht. }
    pose proof (ReplyProps.reply_length_positive (trimmedInput t)).
    pose proof (reply_length_bound (trimmedInput t)).
    unfold uiInvariant. cbn [input isLoading messages timers].
    split; [exact Hin |]. split; [discriminate |]. split.
    + apply Forall_app. split; [exact Hms |].
      constructor; [| constructor]. cbn [content role].
      split; [lia |]. intros E. symmetry in E. now apply user_neq_ai in E.
    + rewrite Forall_forall in *. intros x Hx.
      apply Hts. now apply DelayProps.In_removeNth in Hx.
Qed.

Lemma uiReachable_uiInvariant st : uiReachable st -> uiInvariant st.
Proof.
  induction 1 as [| st ev _ IH Hen].
  - unfold uiInvariant, initialState. cbn [input isLoading messages timers].
    split; [cbn; lia |]. split; [discriminate |]. split; [| constructor].
    constructor; [| constructor]. cbn [content role].
    change (List.length seedGreeting) with 67%nat.
    split; [lia | discriminate].
  - now apply uiInvariant_step.
Qed.

(** X15. Through the page alone, with the textarea refusing input beyond its
    [maxLength] of 2048 and while it is disabled, the lengths stay
    bounded: the input never exceeds 2048 code units and is empty while a
    reply is awaited; every message holds at least 1 and at most 2084 code
    units, a [user] message at most 2048. *)
Theorem page_keeps_lengths_bounded st :
  uiReachable st ->
  (List.length (input st) <= 2048)%nat
  /\ (isLoading st = true -> input st = [])
  /\ Forall (fun m => (1 <= List.length (content m) <= 2084)%nat
                      /\ (role m = user ->
                          (List.length (content m) <= 2048)%nat))
            (messages st).
Proof.
  intros R. destruct (uiReachable_uiInvariant st R) as [H1 [H2 [H3 _]]].
  now repeat split.
Qed.

Lemma page_keeps_lengths_bounded_witness :
  (List.length (input busyState) <= 2048)%nat
  /\ (isLoading busyState = true -> input busyState = [])
  /\ Forall (fun m => (1 <= List.length (content m) <= 2084)%nat
                      /\ (role m = user ->
                          (List.length (content m) <= 2048)%nat))
            (messages busyState).
Proof.
  apply (page_keeps_lengths_bounded busyState).
  unfold busyState, helloTyped.
  apply uiReachable_step; [apply uiReachable_step; [constructor |] |];
    reflexivity.
Defined.

End ViewProps.
